(** * The S3-backed ancient store of multi-geth (core/rawdb/freezer_remote_s3.go)

    A shallow embedding of [freezerRemoteS3]: the write cache ([cache],
    [cacheS]), the read-through cache ([retrieved]), the frozen counter and
    the operations [AppendAncient], [Ancient], [Sync], [pushCache],
    [TruncateAncients] and [newFreezerRemoteS3], over a model of the bucket
    they talk to.

    Conventions.
    - [uint64] values are [N]; the one addition that can overflow
      ([n+1], [atomic.AddUint64]) is wrapped with [wrap64].
    - Go maps are [gmap]s, slices are lists.
    - A Go function returning [error] is a computation returning
      [option error] ([None] is [nil]); a Go panic aborts the computation
      with [Panics], keeping the state at the moment of the panic.
    - The mutex is not modelled: operations run one at a time. *)

From stdpp Require Import base gmap list strings pretty sorting numbers.
From Stdlib Require Import NArith Ascii.
From Stdlib.Strings Require Import Byte.

Open Scope N_scope.

(** ** Bytes, hashes and the record codec *)

Definition bytes : Type := list byte.

#[global] Instance byte_eq_decision : EqDecision byte := byte_eq_dec.

(** [common.HashLength] *)
Definition HashLength : nat := 32%nat.

(** [common.BytesToHash]: the last 32 bytes, left-padded with zeroes. *)
Definition BytesToHash (b : bytes) : bytes :=
  let b' := drop (length b - HashLength) b in
  replicate (HashLength - length b') x00 ++ b'.

(** [common.Hash{}] *)
Definition zeroHash : bytes := replicate HashLength x00.

(** The RLP codec of headers, bodies, receipts and difficulties lives in
    other packages ([core/types], [rlp]); it is taken as a capability.
    [header_Number h] is [h.Number.Uint64()]. Encoders take the pointer as
    stored in the object ([None] is a nil pointer). *)
Class RecordCodec := {
  Header_t : Type;
  Body_t : Type;
  Receipt_t : Type;
  header_Number : Header_t → N;
  rlp_DecodeHeader : bytes → option Header_t;
  rlp_DecodeBody : bytes → option Body_t;
  rlp_DecodeReceipts : bytes → option (list Receipt_t);
  rlp_DecodeDifficulty : bytes → option Z;
  rlp_EncodeHeader : option Header_t → bytes;
  rlp_EncodeBody : option Body_t → bytes;
  rlp_EncodeReceipts : list Receipt_t → bytes;
  rlp_EncodeDifficulty : option Z → bytes
}.

(** The table names ([freezerHashTable], ...) are constants of schema.go,
    which is not part of the sources at hand; they are parameters. *)
Class FreezerSchema := {
  freezerHashTable : string;
  freezerHeaderTable : string;
  freezerBodiesTable : string;
  freezerReceiptTable : string;
  freezerDifficultyTable : string
}.

(** ** Errors and panics *)

Inductive error :=
| errOutOfBounds                 (* package-level sentinel *)
| errNotSupported                (* package-level sentinel *)
| AwsError (code : string)       (* an awserr.Error with this Code() *)
| TransportError (msg : string)  (* any error that is not an awserr.Error *)
| ErrRLP                         (* rlp.DecodeBytes failed *)
| ErrJSON                        (* json.Unmarshal failed *)
| ErrSyntax                      (* strconv.ErrSyntax *)
| ErrRange.                      (* strconv.ErrRange *)

Inductive panic_value :=
| PanicIndexOutOfRange                 (* runtime: index out of range *)
| PanicDivideByZero                    (* runtime: integer divide by zero *)
| PanicNilDereference                  (* runtime: nil pointer dereference *)
| PanicCacheNotAtMod (n md : N)        (* "cache does not begin at mod: n=.. (mod=..)" *)
| PanicBad                             (* panic("bad") *)
| PanicUnknownKind (kind : string).    (* "unknown kind: .." *)

(** [s3.ErrCodeNoSuchKey], [s3.ErrCodeBucketAlreadyExists],
    [s3.ErrCodeBucketAlreadyOwnedByYou] *)
Definition ErrCodeNoSuchKey : string := "NoSuchKey".
Definition ErrCodeBucketAlreadyExists : string := "BucketAlreadyExists".
Definition ErrCodeBucketAlreadyOwnedByYou : string := "BucketAlreadyOwnedByYou".

(** [if aerr, ok := err.(awserr.Error); ok { switch aerr.Code() { case c: ..] *)
Definition hasAwsCode (c : string) (e : error) : bool :=
  match e with
  | AwsError c' => String.eqb c' c
  | _ => false
  end.

(** ** strconv *)

Definition maxUint64 : N := 2 ^ 64 - 1.

Definition wrap64 (x : N) : N := x mod 2 ^ 64.

Definition digit_of (c : ascii) : option N :=
  let n := N_of_ascii c in
  if (48 <=? n) && (n <=? 57) then Some (n - 48) else None.

(** The digit loop of [strconv.ParseUint(s, 10, 64)]. *)
Fixpoint ParseUint_loop (s : string) (n : N) : N * option error :=
  match s with
  | EmptyString => (n, None)
  | String c s' =>
      match digit_of c with
      | None => (0, Some ErrSyntax)
      | Some d =>
          if maxUint64 / 10 + 1 <=? n then (maxUint64, Some ErrRange)
          else
            let n1 := n * 10 + d in
            if maxUint64 <? n1 then (maxUint64, Some ErrRange)
            else ParseUint_loop s' n1
      end
  end.

(** [strconv.ParseUint(s, 10, 64)] *)
Definition ParseUint (s : string) : N * option error :=
  match s with
  | EmptyString => (0, Some ErrSyntax)
  | _ => ParseUint_loop s 0
  end.

(** [strconv.FormatUint(n, 10)] *)
Definition FormatUint (n : N) : string := pretty n.

(** [fmt.Sprintf("%09d", n)] *)
Definition zeroPad9 (s : string) : string :=
  String.concat "" (replicate (9 - String.length s) "0") +:+ s.

(** [awsKeyBlock] *)
Definition awsKeyBlock (number : N) : string :=
  "blocks/" +:+ zeroPad9 (FormatUint number) +:+ ".json".

Definition indexMarkerKey : string := "index-marker".

Declare Scope go_scope.
Delimit Scope go_scope with go.

Section Store.

Context `{RC : RecordCodec} `{FS : FreezerSchema}.

(** ** Data *)

(** [AncientObjectS3]; pointers are options. *)
Record AncientObjectS3 := {
  Hash : bytes;
  Header : option Header_t;
  Body : option Body_t;
  Receipts : list Receipt_t;
  Difficulty : option Z
}.

(** The zero value of the struct, as [f.cache[n]] yields for a missing key. *)
Definition zeroObject : AncientObjectS3 :=
  {| Hash := zeroHash; Header := None; Body := None; Receipts := [];
     Difficulty := None |}.

(** [NewAncientObjectS3] *)
Definition NewAncientObjectS3 (hashB headerB bodyB receiptsB difficultyB : bytes)
  : error + AncientObjectS3 :=
  let hash := BytesToHash hashB in
  match rlp_DecodeHeader headerB with
  | None => inl ErrRLP
  | Some header =>
      match rlp_DecodeBody bodyB with
      | None => inl ErrRLP
      | Some body =>
          match rlp_DecodeReceipts receiptsB with
          | None => inl ErrRLP
          | Some receipts =>
              match rlp_DecodeDifficulty difficultyB with
              | None => inl ErrRLP
              | Some difficulty =>
                  inr {| Hash := hash; Header := Some header; Body := Some body;
                         Receipts := receipts; Difficulty := Some difficulty |}
              end
          end
      end
  end.

(** The fields of [freezerRemoteS3] that carry data. [frozen] is a pointer:
    [None] before the constructor has set it. *)
Record freezerRemoteS3 := {
  frozen : option N;
  objectGroupSize : N;
  retrieved : gmap N AncientObjectS3;
  cache : gmap N AncientObjectS3;
  cacheS : list N
}.

(** The body of a bucket object: either the JSON of a group (what
    [json.Marshal] of a slice of objects writes and [json.Unmarshal] reads
    back) or plain text (the index marker). *)
Inductive s3_body :=
| JSONRecords (l : list AncientObjectS3)
| Text (s : string).

Definition json_Marshal (set : list AncientObjectS3) : s3_body := JSONRecords set.

Definition json_Unmarshal (b : s3_body) : error + list AncientObjectS3 :=
  match b with
  | JSONRecords l => inr l
  | Text _ => inl ErrJSON
  end.

(** The calls made to the object store, most recent first. *)
Inductive request :=
| ReqCreateBucket
| ReqWaitUntilBucketExists
| ReqGetObject (key : string)                (* service.GetObject *)
| ReqPutObject (key : string) (b : s3_body)  (* service.PutObject *)
| ReqDownload (key : string)                 (* downloader.Download *)
| ReqUpload (key : string) (b : s3_body)     (* one object of UploadWithIterator *)
| ReqBatchDelete (marker : string).          (* batcher.Delete over a list iterator *)

(** How the object store misbehaves during one call of an operation. *)
Record faults := {
  session_fault : option error;
  create_bucket_fault : option error;
  wait_bucket_fault : option error;
  get_fault : string → option error;
  put_fault : string → option error;
  delete_fault : option error
}.

Definition noFaults : faults :=
  {| session_fault := None; create_bucket_fault := None;
     wait_bucket_fault := None; get_fault := λ _, None;
     put_fault := λ _, None; delete_fault := None |}.

Record world := {
  fz : freezerRemoteS3;
  bucket : gmap string s3_body;
  requests : list request
}.

(** ** The monad of operations *)

Inductive outcome (A : Type) :=
| Returns (a : A) (w : world)
| Panics (p : panic_value) (w : world).
Arguments Returns {A} a w.
Arguments Panics {A} p w.

Definition M (A : Type) : Type := world → outcome A.

Definition ret {A} (a : A) : M A := λ w, Returns a w.
Definition bind {A B} (m : M A) (k : A → M B) : M B := λ w,
  match m w with
  | Returns a w' => k a w'
  | Panics p w' => Panics p w'
  end.

Notation "x ← y ; z" := (bind y (λ x, z))
  (at level 20, y at level 100, z at level 200, only parsing) : go_scope.
Notation "' x ← y ; z" := (bind y (λ x, z))
  (at level 20, x pattern, y at level 100, z at level 200, only parsing) : go_scope.
Notation "x ;; z" := (bind x (λ _, z))
  (at level 100, z at level 200, only parsing, right associativity) : go_scope.
Open Scope go_scope.

Definition panic {A} (p : panic_value) : M A := λ w, Panics p w.
Definition get_fz : M freezerRemoteS3 := λ w, Returns (fz w) w.
Definition modify_fz (g : freezerRemoteS3 → freezerRemoteS3) : M unit := λ w,
  Returns () {| fz := g (fz w); bucket := bucket w; requests := requests w |}.
Definition log_request (r : request) : M unit := λ w,
  Returns () {| fz := fz w; bucket := bucket w; requests := r :: requests w |}.
Definition get_bucket : M (gmap string s3_body) := λ w, Returns (bucket w) w.
Definition modify_bucket (g : gmap string s3_body → gmap string s3_body) : M unit := λ w,
  Returns () {| fz := fz w; bucket := g (bucket w); requests := requests w |}.

Definition set_frozen (v : option N) (f : freezerRemoteS3) : freezerRemoteS3 :=
  {| frozen := v; objectGroupSize := objectGroupSize f;
     retrieved := retrieved f; cache := cache f; cacheS := cacheS f |}.
Definition set_retrieved (r : gmap N AncientObjectS3) (f : freezerRemoteS3) : freezerRemoteS3 :=
  {| frozen := frozen f; objectGroupSize := objectGroupSize f;
     retrieved := r; cache := cache f; cacheS := cacheS f |}.
Definition set_cache (c : gmap N AncientObjectS3) (f : freezerRemoteS3) : freezerRemoteS3 :=
  {| frozen := frozen f; objectGroupSize := objectGroupSize f;
     retrieved := retrieved f; cache := c; cacheS := cacheS f |}.
Definition set_cacheS (l : list N) (f : freezerRemoteS3) : freezerRemoteS3 :=
  {| frozen := frozen f; objectGroupSize := objectGroupSize f;
     retrieved := retrieved f; cache := cache f; cacheS := l |}.

(** [for _, x := range l { body x }] *)
Fixpoint forM_ {A} (l : list A) (body : A → M unit) : M unit :=
  match l with
  | [] => ret ()
  | x :: l' => body x ;; forM_ l' body
  end.

(** Unsigned division and remainder, which panic on a zero divisor. *)
Definition udiv (a b : N) : M N :=
  if b =? 0 then panic PanicDivideByZero else ret (a / b).
Definition umod (a b : N) : M N :=
  if b =? 0 then panic PanicDivideByZero else ret (a mod b).

(** [atomic.LoadUint64(f.frozen)], [atomic.StoreUint64(f.frozen, v)],
    [atomic.AddUint64(f.frozen, 1)] *)
Definition loadFrozen : M N :=
  f ← get_fz;
  match frozen f with
  | None => panic PanicNilDereference
  | Some n => ret n
  end.
Definition storeFrozen (v : N) : M unit :=
  f ← get_fz;
  match frozen f with
  | None => panic PanicNilDereference
  | Some _ => modify_fz (set_frozen (Some v))
  end.
Definition addFrozen (d : N) : M unit :=
  f ← get_fz;
  match frozen f with
  | None => panic PanicNilDereference
  | Some n => modify_fz (set_frozen (Some (wrap64 (n + d))))
  end.

(** [v.Header.Number.Uint64()] *)
Definition headerNumber (v : AncientObjectS3) : M N :=
  match Header v with
  | None => panic PanicNilDereference
  | Some h => ret (header_Number h)
  end.

(** [RLPBytesForKind] *)
Definition RLPBytesForKind (o : AncientObjectS3) (kind : string) : M bytes :=
  if String.eqb kind freezerHashTable then ret (Hash o)
  else if String.eqb kind freezerHeaderTable then ret (rlp_EncodeHeader (Header o))
  else if String.eqb kind freezerBodiesTable then ret (rlp_EncodeBody (Body o))
  else if String.eqb kind freezerReceiptTable then ret (rlp_EncodeReceipts (Receipts o))
  else if String.eqb kind freezerDifficultyTable then ret (rlp_EncodeDifficulty (Difficulty o))
  else panic (PanicUnknownKind kind).

(** [objectKeyForN] *)
Definition objectKeyForN (n : N) : M string :=
  f ← get_fz;
  q ← udiv n (objectGroupSize f);
  ret (awsKeyBlock (q * objectGroupSize f)).

(** ** The object store *)

(** [downloader.Download]: the body of the object, or the error of the
    store; a missing key is reported with code [NoSuchKey]. *)
Definition Download (io : faults) (key : string) : M (error + s3_body) :=
  log_request (ReqDownload key) ;;
  match get_fault io key with
  | Some e => ret (inl e)
  | None =>
      b ← get_bucket;
      match b !! key with
      | Some body => ret (inr body)
      | None => ret (inl (AwsError ErrCodeNoSuchKey))
      end
  end.

(** [service.GetObject] *)
Definition GetObject (io : faults) (key : string) : M (error + s3_body) :=
  log_request (ReqGetObject key) ;;
  match get_fault io key with
  | Some e => ret (inl e)
  | None =>
      b ← get_bucket;
      match b !! key with
      | Some body => ret (inr body)
      | None => ret (inl (AwsError ErrCodeNoSuchKey))
      end
  end.

(** [service.PutObject] *)
Definition PutObject (io : faults) (key : string) (body : s3_body) : M (option error) :=
  log_request (ReqPutObject key body) ;;
  match put_fault io key with
  | Some e => ret (Some e)
  | None => modify_bucket (insert key body) ;; ret None
  end.

(** [uploader.UploadWithIterator]: every object is tried in turn; the
    failures are collected and reported together at the end. *)
Fixpoint UploadObjects (io : faults) (uploads : list (string * s3_body)) (failed : bool)
  : M bool :=
  match uploads with
  | [] => ret failed
  | (key, body) :: rest =>
      log_request (ReqUpload key body) ;;
      match put_fault io key with
      | Some _ => UploadObjects io rest true
      | None => modify_bucket (insert key body) ;; UploadObjects io rest failed
      end
  end.

Definition UploadWithIterator (io : faults) (uploads : list (string * s3_body))
  : M (option error) :=
  failed ← UploadObjects io uploads false;
  if failed then ret (Some (AwsError "BatchedUploadIncomplete")) else ret None.

(** [batcher.Delete] over [NewDeleteListIterator] with [Marker: marker]:
    a listing with a marker returns the keys that come after the marker in
    lexicographic order, and each listed object is deleted. *)
Definition BatchDelete (io : faults) (marker : string) : M (option error) :=
  log_request (ReqBatchDelete marker) ;;
  match delete_fault io with
  | Some e => ret (Some e)
  | None =>
      modify_bucket (filter (λ kv, String.ltb marker kv.1 = false)) ;;
      ret None
  end.

(** ** The store *)

(** [if f.cacheS[0] % f.objectGroupSize != 0 { panic(..) }] *)
Definition assertCacheBeginsAtMod : M unit :=
  f ← get_fz;
  match cacheS f with
  | [] => panic PanicIndexOutOfRange
  | n0 :: _ =>
      md ← umod n0 (objectGroupSize f);
      if md =? 0 then ret () else panic (PanicCacheNotAtMod n0 md)
  end.

(** [initializeBucket] *)
Definition initializeBucket (io : faults) : M (option error) :=
  log_request ReqCreateBucket ;;
  match create_bucket_fault io with
  | Some e =>
      if hasAwsCode ErrCodeBucketAlreadyExists e
         || hasAwsCode ErrCodeBucketAlreadyOwnedByYou e
      then ret None
      else ret (Some e)
  | None =>
      log_request ReqWaitUntilBucketExists ;;
      match wait_bucket_fault io with
      | Some e => ret (Some e)
      | None => ret None
      end
  end.

(** [initCache] *)
Definition initCache (io : faults) (n : N) : M (option error) :=
  key ← objectKeyForN n;
  r ← Download io key;
  match r with
  | inl e =>
      if hasAwsCode ErrCodeNoSuchKey e then ret (Some errOutOfBounds)
      else ret (Some e)
  | inr buf =>
      match json_Unmarshal buf with
      | inl e => ret (Some e)
      | inr target =>
          forM_ target (λ v,
            n ← headerNumber v;
            modify_fz (λ f, set_cache (<[n := v]> (cache f))
                              (set_cacheS (cacheS f ++ [n]) f))) ;;
          assertCacheBeginsAtMod ;;
          ret None
      end
  end.

(** [Ancients] *)
Definition Ancients (io : faults) : M (N * option error) :=
  f ← get_fz;
  match frozen f with
  | Some n => ret (n, None)
  | None =>
      r ← GetObject io indexMarkerKey;
      match r with
      | inl e =>
          if hasAwsCode ErrCodeNoSuchKey e then ret (0, None)
          else ret (0, Some e)
      | inr (Text contents) => ret (ParseUint contents)
      | inr (JSONRecords _) => ret (0, Some ErrSyntax)
      end
  end.

(** The struct literal built by [newFreezerRemoteS3]. *)
Definition emptyFreezer (freezerGroups : N) : freezerRemoteS3 :=
  {| frozen := None; objectGroupSize := freezerGroups;
     retrieved := ∅; cache := ∅; cacheS := [] |}.

(** [newFreezerRemoteS3], run on a world whose store is not yet built.
    [env] is the value of GETH_FREEZER_S3_GROUP_OBJECTS. The result is the
    pair the function returns: whether the store pointer is non-nil, and
    the error. *)
Definition newFreezerRemoteS3 (io : faults) (env : string) : M (bool * option error) :=
  let parsed := if String.eqb env "" then (32, None) else ParseUint env in
  match parsed with
  | (_, Some e) => ret (false, Some e)
  | (freezerGroups, None) =>
      modify_fz (λ _, emptyFreezer freezerGroups) ;;
      match session_fault io with
      | Some e => ret (false, Some e)
      | None =>
          err ← initializeBucket io;
          match err with
          | Some e => ret (true, Some e)
          | None =>
              '(n, _) ← Ancients io;
              modify_fz (set_frozen (Some n)) ;;
              if 0 <? n then
                err ← initCache io n;
                match err with
                | Some e => ret (true, Some e)
                | None => ret (true, None)
                end
              else ret (true, None)
          end
      end
  end.

(** [Ancient]: the blob ([None] is a nil slice) and the error. *)
Definition Ancient (io : faults) (kind : string) (number : N)
  : M (option bytes * option error) :=
  fr ← loadFrozen;
  if fr <=? number then ret (None, None)
  else
    f ← get_fz;
    match cache f !! number with
    | Some v => b ← RLPBytesForKind v kind; ret (Some b, None)
    | None =>
        match retrieved f !! number with
        | Some v => b ← RLPBytesForKind v kind; ret (Some b, None)
        | None =>
            key ← objectKeyForN number;
            r ← Download io key;
            match r with
            | inl e =>
                if hasAwsCode ErrCodeNoSuchKey e then ret (None, Some errOutOfBounds)
                else ret (None, Some e)
            | inr buf =>
                match json_Unmarshal buf with
                | inl e => ret (None, Some e)
                | inr target =>
                    modify_fz (set_retrieved ∅) ;;
                    o ← foldl (λ (acc : M AncientObjectS3) v,
                                 o ← acc;
                                 n ← headerNumber v;
                                 modify_fz (λ f, set_retrieved (<[n := v]> (retrieved f)) f) ;;
                                 if n =? number then ret v else ret o)
                              (ret zeroObject) target;
                    if bool_decide (Hash o = zeroHash) then panic PanicBad
                    else b ← RLPBytesForKind o kind; ret (Some b, None)
                end
            end
        end
    end.

(** [HasAncient] *)
Definition HasAncient (io : faults) (kind : string) (number : N)
  : M (bool * option error) :=
  '(v, err) ← Ancient io kind number;
  match err with
  | Some e => ret (false, Some e)
  | None => ret (bool_decide (v ≠ None), None)
  end.

(** [AncientSize] *)
Definition AncientSize (kind : string) : M (N * option error) :=
  ret (0, Some errNotSupported).

(** [setIndexMarker] *)
Definition setIndexMarker (io : faults) (number : N) : M (option error) :=
  PutObject io indexMarkerKey (Text (FormatUint number)).

(** [AppendAncient] *)
Definition AppendAncient (number : N) (hash header body receipts td : bytes)
  : M (option error) :=
  match NewAncientObjectS3 hash header body receipts td with
  | inl e => ret (Some e)
  | inr o =>
      modify_fz (λ f, set_cache (<[number := o]> (cache f)) f) ;;
      modify_fz (λ f, set_cacheS (cacheS f ++ [number]) f) ;;
      assertCacheBeginsAtMod ;;
      addFrozen 1 ;;
      ret None
  end.

(** [sliceIndexOf]; [None] is -1. *)
Fixpoint sliceIndexOf_from (i : nat) (sl : list N) (n : N) : option nat :=
  match sl with
  | [] => None
  | s :: sl' => if s =? n then Some i else sliceIndexOf_from (S i) sl' n
  end.
Definition sliceIndexOf (sl : list N) (n : N) : option nat := sliceIndexOf_from 0 sl n.

(** The state of the sealing loop of [pushCache]. *)
Record sealing := {
  set : list AncientObjectS3;
  uploads : list (string * s3_body);
  remainders : list N
}.

(** [set := []..{}; uploads := []..{}; remainders := []uint64{}] *)
Definition noSealing : sealing := {| set := []; uploads := []; remainders := [] |}.

(** One iteration of [for i, n := range f.cacheS] in [pushCache];
    [last] is [i == len(f.cacheS)-1]. *)
Definition sealStep (n : N) (last : bool) (st : sealing) : M sealing :=
  f ← get_fz;
  let v := default zeroObject (cache f !! n) in
  let set1 := set st ++ [v] in
  let rem1 := remainders st ++ [n] in
  md ← umod (wrap64 (n + 1)) (objectGroupSize f);
  let endGroup := md =? 0 in
  st1 ← (if endGroup || last then
           key ← objectKeyForN n;
           ret {| set := []; uploads := uploads st ++ [(key, json_Marshal set1)];
                   remainders := rem1 |}
         else ret {| set := set1; uploads := uploads st; remainders := rem1 |});
  if endGroup
  then ret {| set := set st1; uploads := uploads st1; remainders := [] |}
  else ret st1.

Fixpoint sealLoop (l : list N) (st : sealing) : M sealing :=
  match l with
  | [] => ret st
  | n :: l' =>
      st' ← sealStep n (bool_decide (l' = [])) st;
      sealLoop l' st'
  end.

(** [for _, n := range f.cacheS { if sliceIndexOf(remainders, n) < 0 { delete(f.cache, n) } }] *)
Definition evict (rem : list N) (l : list N) (c : gmap N AncientObjectS3)
  : gmap N AncientObjectS3 :=
  foldl (λ c n, match sliceIndexOf rem n with
                | None => delete n c
                | Some _ => c
                end) c l.

(** [pushCache] *)
Definition pushCache (io : faults) : M (option error) :=
  f ← get_fz;
  if bool_decide (length (cacheS f) = 0%nat) then ret None
  else
    assertCacheBeginsAtMod ;;
    st ← sealLoop (cacheS f) noSealing;
    err ← UploadWithIterator io (uploads st);
    match err with
    | Some e => ret (Some e)
    | None =>
        modify_fz (λ f, set_cache (evict (remainders st) (cacheS f) (cache f)) f) ;;
        modify_fz (set_cacheS (remainders st)) ;;
        assertCacheBeginsAtMod ;;
        modify_fz (set_retrieved ∅) ;;
        ret None
    end.

(** [Sync] *)
Definition Sync (io : faults) : M (option error) :=
  f ← get_fz;
  let lenCache := size (cache f) in
  if bool_decide (lenCache = 0%nat) then ret None
  else
    err ← pushCache io;
    match err with
    | Some e => ret (Some e)
    | None =>
        n ← loadFrozen;
        setIndexMarker io n
    end.

(** The first loop of [TruncateAncients]: entries at or above [items]
    leave the map; [cachedAt] is the last index holding [items]. *)
Fixpoint truncateScan (items : N) (i : nat) (l : list N)
    (c : gmap N AncientObjectS3) (cachedAt : option nat)
  : gmap N AncientObjectS3 * option nat :=
  match l with
  | [] => (c, cachedAt)
  | v :: l' =>
      let c' := if items <=? v then delete v c else c in
      let cachedAt' := if v =? items then Some i else cachedAt in
      truncateScan items (S i) l' c' cachedAt'
  end.

(** [TruncateAncients] *)
Definition TruncateAncients (io : faults) (items : N) : M (option error) :=
  assertCacheBeginsAtMod ;;
  f ← get_fz;
  let '(c, cachedAt) := truncateScan items 0 (cacheS f) (cache f) None in
  modify_fz (set_cache c) ;;
  match cachedAt with
  | Some i =>
      modify_fz (λ f, set_cacheS (take i (cacheS f)) f) ;;
      err ← setIndexMarker io items;
      match err with
      | Some e => ret (Some e)
      | None => storeFrozen items ;; ret None
      end
  | None =>
      assertCacheBeginsAtMod ;;
      n ← loadFrozen;
      md ← umod items (objectGroupSize f);
      err ← (if negb (md =? 0) then
               key ← objectKeyForN items;
               r ← Download io key;
               match r with
               | inl e =>
                   if hasAwsCode ErrCodeNoSuchKey e then ret (Some errOutOfBounds)
                   else ret (Some e)
               | inr buf =>
                   match json_Unmarshal buf with
                   | inl e => ret (Some e)
                   | inr target =>
                       modify_fz (λ f, set_cache ∅ (set_cacheS [] f)) ;;
                       forM_ target (λ t,
                         n ← headerNumber t;
                         if n <? items then
                           modify_fz (λ f, set_cache (<[n := t]> (cache f))
                                             (set_cacheS (cacheS f ++ [n]) f))
                         else ret ()) ;;
                       modify_fz (λ f, set_cacheS (merge_sort N.le (cacheS f)) f) ;;
                       ret None
                   end
               end
             else
               modify_fz (λ f, set_cache ∅ (set_cacheS [] f)) ;; ret None);
      match err with
      | Some e => ret (Some e)
      | None =>
          marker ← objectKeyForN items;
          err ← BatchDelete io marker;
          match err with
          | Some e => ret (Some e)
          | None =>
              f ← get_fz;
              err ← (if bool_decide (0 < size (cache f))%nat then pushCache io
                     else ret None);
              match err with
              | Some e => ret (Some e)
              | None =>
                  err ← setIndexMarker io items;
                  match err with
                  | Some e => ret (Some e)
                  | None => storeFrozen items ;; ret None
                  end
              end
          end
      end
  end.

(** ** The sealing loop as a function of the group size and the cache

    [pushCache] reaches its loop only after [f.cacheS[0] % f.objectGroupSize]
    has been evaluated, so the group size is not zero there and the loop is
    a function of the data; [sealLoop_sealPure] relates the two. *)

Definition endsGroup (gs n : N) : bool := wrap64 (n + 1) mod gs =? 0.

Definition groupKey (gs n : N) : string := awsKeyBlock (n / gs * gs).

(** [v := f.cache[n]] *)
Definition cached (c : gmap N AncientObjectS3) (n : N) : AncientObjectS3 :=
  default zeroObject (c !! n).

Definition sealStepPure (gs : N) (c : gmap N AncientObjectS3) (n : N) (last : bool)
    (st : sealing) : sealing :=
  let set1 := set st ++ [cached c n] in
  let rem1 := remainders st ++ [n] in
  let st1 :=
    if endsGroup gs n || last
    then {| set := []; uploads := uploads st ++ [(groupKey gs n, json_Marshal set1)];
            remainders := rem1 |}
    else {| set := set1; uploads := uploads st; remainders := rem1 |} in
  if endsGroup gs n
  then {| set := set st1; uploads := uploads st1; remainders := [] |}
  else st1.

Fixpoint sealPure (gs : N) (c : gmap N AncientObjectS3) (l : list N) (st : sealing)
  : sealing :=
  match l with
  | [] => st
  | n :: l' => sealPure gs c l' (sealStepPure gs c n (bool_decide (l' = [])) st)
  end.

(** What the loop leaves in [remainders]: the numbers after the last one
    that ends a group. *)
Definition trailing (gs : N) (r l : list N) : list N :=
  foldl (λ r n, if endsGroup gs n then [] else r ++ [n]) r l.

(** The bucket after a batch of uploads none of which failed. *)
Definition putAll (ups : list (string * s3_body)) (b : gmap string s3_body)
  : gmap string s3_body :=
  foldl (λ b kv, <[kv.1 := kv.2]> b) b ups.

(** [k] consecutive numbers from [n] on. *)
Fixpoint countFrom (n : N) (k : nat) : list N :=
  match k with
  | O => []
  | S k => n :: countFrom (n + 1) k
  end.

(** ** Callers

    The five blobs handed to [AppendAncient] for one record. *)
Record blobs := {
  hashB : bytes;
  headerB : bytes;
  bodyB : bytes;
  receiptsB : bytes;
  tdB : bytes
}.

Definition appendBlobs (number : N) (b : blobs) : M (option error) :=
  AppendAncient number (hashB b) (headerB b) (bodyB b) (receiptsB b) (tdB b).

(** [o] is the object [NewAncientObjectS3] builds from the blobs [b]. *)
Definition decodes (b : blobs) (o : AncientObjectS3) : Prop :=
  NewAncientObjectS3 (hashB b) (headerB b) (bodyB b) (receiptsB b) (tdB b) = inr o.

(** The records of [numbers] appended one after the other, stopping at the
    first error. *)
Fixpoint appendRange (bs : N → blobs) (numbers : list N) : M (option error) :=
  match numbers with
  | [] => ret None
  | i :: rest =>
      err ← appendBlobs i (bs i);
      match err with
      | Some e => ret (Some e)
      | None => appendRange bs rest
      end
  end.

(** A store as the constructor leaves it on an empty bucket, with groups
    of [gs] records. *)
Definition freshStore (gs : N) : world :=
  {| fz := {| frozen := Some 0; objectGroupSize := gs; retrieved := ∅;
              cache := ∅; cacheS := [] |};
     bucket := ∅; requests := [] |}.

(** The store that holds the records [o i] of [numbers] in its write
    cache, with frozen count [fr]. *)
Definition staged (gs fr : N) (o : N → AncientObjectS3) (numbers : list N)
  : freezerRemoteS3 :=
  {| frozen := Some fr; objectGroupSize := gs; retrieved := ∅;
     cache := list_to_map ((λ i, (i, o i)) <$> numbers); cacheS := numbers |}.

(** The world an outcome ends in. *)
Definition world_of {A} (o : outcome A) : world :=
  match o with
  | Returns _ w => w
  | Panics _ w => w
  end.

(** What an outcome returns, if it returns. *)
Definition returned {A} (o : outcome A) : option A :=
  match o with
  | Returns a _ => Some a
  | Panics _ _ => None
  end.

(** The records of a group object. *)
Definition recordsOf (b : s3_body) : list AncientObjectS3 :=
  match b with
  | JSONRecords l => l
  | Text _ => []
  end.

(** The sequence of cached numbers is empty or begins at a multiple of the
    group size: what the six checks of [f.cacheS[0] % f.objectGroupSize]
    ask for. *)
Definition headAligned (f : freezerRemoteS3) : Prop :=
  match cacheS f with
  | [] => True
  | n0 :: _ => objectGroupSize f ≠ 0 ∧ n0 mod objectGroupSize f = 0
  end.

(** Every cached number has its record in the map. *)
Definition cacheCovers (f : freezerRemoteS3) : Prop :=
  Forall (λ n, is_Some (cache f !! n)) (cacheS f).

(** The two halves of [TruncateAncients] after its first loop, named so
    that they can be reasoned about apart: the branch [if cachedAt >= 0],
    and the rest of the function. [TruncateAncients_unfold] shows that the
    function is made of them. *)
Definition truncateCached (io : faults) (items : N) (i : nat) : M (option error) :=
  modify_fz (λ f, set_cacheS (take i (cacheS f)) f) ;;
  err ← setIndexMarker io items;
  match err with
  | Some e => ret (Some e)
  | None => storeFrozen items ;; ret None
  end.

(** [if items % f.objectGroupSize != 0 { .. } else { .. }] *)
Definition refillFromRemote (io : faults) (items md : N) : M (option error) :=
  if negb (md =? 0) then
    key ← objectKeyForN items;
    r ← Download io key;
    match r with
    | inl e =>
        if hasAwsCode ErrCodeNoSuchKey e then ret (Some errOutOfBounds)
        else ret (Some e)
    | inr buf =>
        match json_Unmarshal buf with
        | inl e => ret (Some e)
        | inr target =>
            modify_fz (λ f, set_cache ∅ (set_cacheS [] f)) ;;
            forM_ target (λ t,
              n ← headerNumber t;
              if n <? items then
                modify_fz (λ f, set_cache (<[n := t]> (cache f))
                                  (set_cacheS (cacheS f ++ [n]) f))
              else ret ()) ;;
            modify_fz (λ f, set_cacheS (merge_sort N.le (cacheS f)) f) ;;
            ret None
        end
    end
  else
    modify_fz (λ f, set_cache ∅ (set_cacheS [] f)) ;; ret None.

Definition truncateRemote (io : faults) (items gs : N) : M (option error) :=
  assertCacheBeginsAtMod ;;
  n ← loadFrozen;
  md ← umod items gs;
  err ← refillFromRemote io items md;
  match err with
  | Some e => ret (Some e)
  | None =>
      marker ← objectKeyForN items;
      err ← BatchDelete io marker;
      match err with
      | Some e => ret (Some e)
      | None =>
          f ← get_fz;
          err ← (if bool_decide (0 < size (cache f))%nat then pushCache io
                 else ret None);
          match err with
          | Some e => ret (Some e)
          | None =>
              err ← setIndexMarker io items;
              match err with
              | Some e => ret (Some e)
              | None => storeFrozen items ;; ret None
              end
          end
      end
  end.

(** [initializeBucket] returns nil: the bucket was created and seen to
    exist, or it was there already. *)
Definition bucketReady (io : faults) : Prop :=
  match create_bucket_fault io with
  | Some e => hasAwsCode ErrCodeBucketAlreadyExists e
              || hasAwsCode ErrCodeBucketAlreadyOwnedByYou e = true
  | None => wait_bucket_fault io = None
  end.

(** The requests [initializeBucket] makes. *)
Definition bucketRequests (io : faults) : list request :=
  match create_bucket_fault io with
  | Some _ => [ReqCreateBucket]
  | None => [ReqWaitUntilBucketExists; ReqCreateBucket]
  end.

(** The group size the constructor takes from the environment. *)
Definition groupsFromEnv (env : string) (gs : N) : Prop :=
  (env = "" ∧ gs = 32) ∨ (env ≠ "" ∧ ParseUint env = (gs, None)).

(** The three mutations, with the faults of the bucket during each call. *)
Inductive operation :=
| OpAppend (number : N) (b : blobs)
| OpSync (io : faults)
| OpTruncate (io : faults) (items : N).

Definition runOp (op : operation) : M (option error) :=
  match op with
  | OpAppend number b => appendBlobs number b
  | OpSync io => Sync io
  | OpTruncate io items => TruncateAncients io items
  end.

(** A caller that runs the operations in turn and stops at the first
    error. *)
Fixpoint runOps (ops : list operation) : M (option error) :=
  match ops with
  | [] => ret None
  | op :: rest =>
      err ← runOp op;
      match err with
      | Some e => ret (Some e)
      | None => runOps rest
      end
  end.

(** One of the five table names. *)
Definition validKind (kind : string) : Prop :=
  kind = freezerHashTable ∨ kind = freezerHeaderTable ∨
  kind = freezerBodiesTable ∨ kind = freezerReceiptTable ∨
  kind = freezerDifficultyTable.

(** The five table names are different strings. *)
Definition distinctTables : Prop :=
  NoDup [freezerHashTable; freezerHeaderTable; freezerBodiesTable;
         freezerReceiptTable; freezerDifficultyTable].

(** Reading [number] in world [w] gives, for each of the five kinds, the
    bytes that the blobs [b] handed to [AppendAncient] stand for: the hash
    as 32 bytes, and for the other kinds the encoding of what the blob
    decoded to; and the read leaves the world as it was. *)
Definition servesBlobs (w : world) (number : N) (b : blobs) : Prop :=
  ∀ io,
    Ancient io freezerHashTable number w =
      Returns (Some (BytesToHash (hashB b)), None) w ∧
    Ancient io freezerHeaderTable number w =
      Returns (Some (rlp_EncodeHeader (rlp_DecodeHeader (headerB b))), None) w ∧
    Ancient io freezerBodiesTable number w =
      Returns (Some (rlp_EncodeBody (rlp_DecodeBody (bodyB b))), None) w ∧
    Ancient io freezerReceiptTable number w =
      Returns (Some (rlp_EncodeReceipts (default [] (rlp_DecodeReceipts (receiptsB b)))),
               None) w ∧
    Ancient io freezerDifficultyTable number w =
      Returns (Some (rlp_EncodeDifficulty (rlp_DecodeDifficulty (tdB b))), None) w.
(** ** Relations kept by operations

    [preserves R m]: whenever [m] returns, the worlds before and after are
    related by [R]. *)
Definition preserves {A} (R : world → world → Prop) (m : M A) : Prop :=
  ∀ w a w', m w = Returns a w' → R w w'.

(** The read-through cache is as it was. *)
Definition keepsRetrieved (w w' : world) : Prop :=
  retrieved (fz w') = retrieved (fz w).

(** The read-through cache is as it was, or has been emptied. *)
Definition keepsOrEmptiesRetrieved (w w' : world) : Prop :=
  retrieved (fz w') = retrieved (fz w) ∨ retrieved (fz w') = ∅.

(** The smallest number of a sequence of cached numbers. *)
Definition smallest (l : list N) : option N :=
  match l with
  | [] => None
  | n :: l' => Some (foldr N.min n l')
  end.

End Store.

Arguments Returns {_ _} a w.
Arguments Panics {_ _} p w.

Notation "x ← y ; z" := (bind y (λ x, z))
  (at level 20, y at level 100, z at level 200, only parsing) : go_scope.
Notation "' x ← y ; z" := (bind y (λ x, z))
  (at level 20, x pattern, y at level 100, z at level 200, only parsing) : go_scope.
Notation "x ;; z" := (bind x (λ _, z))
  (at level 100, z at level 200, only parsing, right associativity) : go_scope.
Open Scope go_scope.

(** ** A small codec for concrete runs

    Headers are their block number (one byte on the wire), bodies and
    receipts are raw bytes, difficulties are one byte. *)
Module Toy.

Definition decodeByte (b : bytes) : option N :=
  match b with
  | [x] => Some (Byte.to_N x)
  | _ => None
  end.

Definition encodeByte (n : N) : bytes :=
  match Byte.of_N n with
  | Some x => [x]
  | None => []
  end.

#[global] Instance codec : RecordCodec := {|
  Header_t := N;
  Body_t := bytes;
  Receipt_t := byte;
  header_Number := λ h, h;
  rlp_DecodeHeader := decodeByte;
  rlp_DecodeBody := λ b, Some b;
  rlp_DecodeReceipts := λ b, Some b;
  rlp_DecodeDifficulty := λ b, Z.of_N <$> decodeByte b;
  rlp_EncodeHeader := λ h, from_option encodeByte [] h;
  rlp_EncodeBody := λ b, from_option id [] b;
  rlp_EncodeReceipts := λ r, r;
  rlp_EncodeDifficulty := λ d, from_option (λ z, encodeByte (Z.to_N z)) [] d
|}.

#[global] Instance schema : FreezerSchema := {|
  freezerHashTable := "hashes";
  freezerHeaderTable := "headers";
  freezerBodiesTable := "bodies";
  freezerReceiptTable := "receipts";
  freezerDifficultyTable := "diffs"
|}.

(** The five blobs of block [i], as handed to [AppendAncient]. *)
Definition blob (i : N) : bytes := encodeByte i.
Definition hashBlob (i : N) : bytes := encodeByte (i + 1).

(** The object [NewAncientObjectS3] builds from them. *)
Definition block (i : N) : AncientObjectS3 :=
  {| Hash := BytesToHash (hashBlob i); Header := Some i; Body := Some (blob i);
     Receipts := blob i; Difficulty := Some (Z.of_N i) |}.

Definition blobsOf (i : N) : blobs :=
  {| hashB := hashBlob i; headerB := blob i; bodyB := blob i;
     receiptsB := blob i; tdB := blob i |}.

Definition append (i : N) : M (option error) := appendBlobs i (blobsOf i).

Definition fresh (gs : N) : world := freshStore gs.

(** A bucket before the constructor has run. *)
Definition unbuilt (b : gmap string s3_body) : world :=
  {| fz := emptyFreezer 0; bucket := b; requests := [] |}.

(** A bucket holding four records in one complete group of four, and the
    marker that counts them. *)
Definition tailBucket : gmap string s3_body :=
  <[indexMarkerKey := Text "4"]>
    (<[awsKeyBlock 0 := JSONRecords [block 0; block 1; block 2; block 3]]> ∅).

(** One record appended to a fresh store of group size 4, not yet synced. *)
Definition appendedOne : world := world_of (append 0 (fresh 4)).

(** The same store after a [Sync]. *)
Definition syncedOnce : world := world_of (Sync noFaults appendedOne).

(** Records 0..4 appended and synced, then record 0 read back from the
    bucket: the read-through cache holds the group of records 0..3. *)
Definition afterRead : world :=
  world_of ((appendRange blobsOf [0; 1; 2; 3; 4] ;;
             Sync noFaults ;;
             Ancient noFaults "hashes" 0) (fresh 4)).

(** One more record appended after that read. *)
Definition afterAppend : world := world_of (append 5 afterRead).


(** A store whose fetches of the first group fail in transport. *)
Definition brokenLink : faults :=
  {| session_fault := None; create_bucket_fault := None;
     wait_bucket_fault := None;
     get_fault := λ key, if String.eqb key (awsKeyBlock 0)
                         then Some (TransportError "connection reset") else None;
     put_fault := λ _, None; delete_fault := None |}.

(** Records 0..10 appended and synced: the groups of records 0..3 and
    4..7 and the open group of records 8..10 are in the bucket. *)
Definition elevenSynced : world :=
  world_of ((appendRange blobsOf [0; 1; 2; 3; 4; 5; 6; 7; 8; 9; 10] ;;
             Sync noFaults) (fresh 4)).

(** Records 0..3, and records 0..4, appended to a fresh store of group
    size 4 and not synced. *)
Definition fourAppended : world :=
  world_of (appendRange blobsOf [0; 1; 2; 3] (fresh 4)).
Definition fiveAppended : world :=
  world_of (appendRange blobsOf [0; 1; 2; 3; 4] (fresh 4)).

(** The latter after a [Sync]. *)
Definition fiveSynced : world := world_of (Sync noFaults fiveAppended).

(** A bucket that refuses every upload and every write of the marker. *)
Definition noUploads : faults :=
  {| session_fault := None; create_bucket_fault := None;
     wait_bucket_fault := None; get_fault := λ _, None;
     put_fault := λ _, Some (TransportError "connection reset");
     delete_fault := None |}.

(** A store of three records whose group object holds only the first
    two. *)
Definition shortGroup : world :=
  {| fz := {| frozen := Some 3; objectGroupSize := 4; retrieved := ∅;
              cache := ∅; cacheS := [] |};
     bucket := {[ awsKeyBlock 0 := JSONRecords [block 0; block 1] ]};
     requests := [] |}.

(** Two appends, a [Sync] and a truncation. *)
Definition someOps : list operation :=
  [OpAppend 0 (blobsOf 0); OpAppend 1 (blobsOf 1); OpSync noFaults;
   OpTruncate noFaults 1].

End Toy.

(** * Properties *)

Ltac run :=
  unfold bind, ret, panic, get_fz, modify_fz, log_request, get_bucket,
    modify_bucket; simpl.

(** Closes a closed goal by evaluation; for [a = b] both sides are
    evaluated and compared. *)
Ltac by_eval :=
  lazymatch goal with
  | |- ?a = ?b => vm_cast_no_check (@eq_refl _ b)
  | |- _ => by vm_compute
  end.


Section Facts.

Context `{RC : RecordCodec} `{FS : FreezerSchema}.

Implicit Types (w : world) (f : freezerRemoteS3) (io : faults).

(** ** The alignment assertion *)

Lemma assertCacheBeginsAtMod_nil w :
  cacheS (fz w) = [] →
  assertCacheBeginsAtMod w = Panics PanicIndexOutOfRange w.
Proof. intros E. unfold assertCacheBeginsAtMod. run. by rewrite E. Qed.

Lemma assertCacheBeginsAtMod_ok w n0 l :
  cacheS (fz w) = n0 :: l →
  objectGroupSize (fz w) ≠ 0 →
  n0 mod objectGroupSize (fz w) = 0 →
  assertCacheBeginsAtMod w = Returns () w.
Proof.
  intros E Hgs Hmod. unfold assertCacheBeginsAtMod, umod. run. rewrite E.
  destruct (N.eqb_spec (objectGroupSize (fz w)) 0) as [|_]; [done|].
  run. by rewrite Hmod.
Qed.

Lemma assertCacheBeginsAtMod_inv w u w' :
  assertCacheBeginsAtMod w = Returns u w' →
  w' = w ∧ objectGroupSize (fz w) ≠ 0 ∧
  ∃ n0 l, cacheS (fz w) = n0 :: l ∧ n0 mod objectGroupSize (fz w) = 0.
Proof.
  unfold assertCacheBeginsAtMod, umod. run.
  destruct (cacheS (fz w)) as [|n0 l] eqn:E; [done|].
  destruct (N.eqb_spec (objectGroupSize (fz w)) 0) as [|Hgs]; [done|]. run.
  destruct (N.eqb_spec (n0 mod objectGroupSize (fz w)) 0) as [Hm|]; [|done].
  intros [= _ <-]. split; [done|]. split; [done|]. by exists n0, l.
Qed.

(** claim C10: [TruncateAncients] called while the sequence of cached
    numbers is empty panics with an index out of range, whatever the
    target, before it has changed the store or talked to the bucket. *)
Theorem TruncateAncients_empty_cache_panics io items w :
  cacheS (fz w) = [] →
  TruncateAncients io items w = Panics PanicIndexOutOfRange w.
Proof.
  intros E. unfold TruncateAncients. unfold bind at 1.
  by rewrite assertCacheBeginsAtMod_nil.
Qed.

Lemma Ancient_frozen_guard io kind number n w :
  frozen (fz w) = Some n →
  (n <=? number) = true →
  Ancient io kind number w = Returns (None, None) w.
Proof. intros E Hle. unfold Ancient, loadFrozen. run. rewrite E. run. by rewrite Hle. Qed.

(** claim C8: [Ancient] of a number at or above the frozen count returns
    a nil blob and a nil error, for every kind, and leaves the world as it
    was: nothing is asked of the bucket. *)
Theorem Ancient_at_or_above_frozen io kind number n w :
  frozen (fz w) = Some n →
  n ≤ number →
  Ancient io kind number w = Returns (None, None) w.
Proof.
  intros E Hle. apply (Ancient_frozen_guard io kind number n); [done|].
  by apply N.leb_le.
Qed.

End Facts.

(** The witness of C10: a fresh store, truncated to 0. *)
Lemma TruncateAncients_empty_cache_panics_witness :
  TruncateAncients noFaults 0 (Toy.fresh 4) = Panics PanicIndexOutOfRange (Toy.fresh 4).
Proof. apply TruncateAncients_empty_cache_panics. reflexivity. Defined.

(** The witness of C8: a fresh store holds nothing at number 7. *)
Lemma Ancient_at_or_above_frozen_witness :
  Ancient noFaults "headers" 7 (Toy.fresh 4) = Returns (None, None) (Toy.fresh 4).
Proof. apply (Ancient_at_or_above_frozen noFaults "headers" 7 0); [reflexivity | lia]. Defined.

(** claim C1: [AppendAncient] has no check of the number against the
    frozen count. On a fresh store of group size 4, whose frozen count is 0,
    appending number 8 returns nil, stages the record and advances the
    frozen count to 1. *)
Theorem AppendAncient_accepts_out_of_order :
  Toy.append 8 (Toy.fresh 4) =
  Returns None
    {| fz := {| frozen := Some 1; objectGroupSize := 4; retrieved := ∅;
                cache := {[ 8 := Toy.block 8 ]}; cacheS := [8] |};
       bucket := ∅; requests := [] |}.
Proof. by_eval. Qed.

(** claim C2: with the marker at 4 and the complete group of records
    0..3 present, the constructor asks for the group of number 4, not for
    the group of number 3, and returns [errOutOfBounds]. *)
Theorem newFreezerRemoteS3_at_group_multiple :
  is_Some (Toy.tailBucket !! awsKeyBlock 0) ∧
  newFreezerRemoteS3 noFaults "4" (Toy.unbuilt Toy.tailBucket) =
  Returns (true, Some errOutOfBounds)
    {| fz := {| frozen := Some 4; objectGroupSize := 4; retrieved := ∅;
                cache := ∅; cacheS := [] |};
       bucket := Toy.tailBucket;
       requests := [ReqDownload (awsKeyBlock 4); ReqGetObject indexMarkerKey;
                    ReqWaitUntilBucketExists; ReqCreateBucket] |}.
Proof. split; [by eexists | by_eval]. Qed.

(** claim C6: after [AppendAncient] of 4 and then of 1 on a fresh store
    of group size 4, both of which return nil, the write cache holds the
    numbers 4 and 1: the smallest is 1, which is not a multiple of 4. *)
Theorem cache_smallest_not_aligned :
  ∃ w, (Toy.append 4 ;; Toy.append 1) (Toy.fresh 4) = Returns None w ∧
       cacheS (fz w) = [4; 1] ∧
       dom (cache (fz w)) = {[ 1; 4 ]} ∧
       smallest (cacheS (fz w)) = Some 1 ∧
       1 mod objectGroupSize (fz w) ≠ 0.
Proof.
  exists (world_of ((Toy.append 4 ;; Toy.append 1) (Toy.fresh 4))).
  split; [by_eval|]. split; [by_eval|]. split; [by_eval|]. split; by_eval.
Qed.

Section SealFacts.

Context `{RC : RecordCodec} `{FS : FreezerSchema}.

Implicit Types (w : world) (f : freezerRemoteS3) (io : faults) (st : sealing).

(** ** The sealing loop *)

Lemma objectKeyForN_ok w n :
  objectGroupSize (fz w) ≠ 0 →
  objectKeyForN n w = Returns (groupKey (objectGroupSize (fz w)) n) w.
Proof.
  intros Hgs. unfold objectKeyForN, udiv. run.
  by destruct (N.eqb_spec (objectGroupSize (fz w)) 0).
Qed.

Lemma sealStep_sealStepPure w n last st :
  objectGroupSize (fz w) ≠ 0 →
  sealStep n last st w =
  Returns (sealStepPure (objectGroupSize (fz w)) (cache (fz w)) n last st) w.
Proof.
  intros Hgs. unfold sealStep, sealStepPure, umod, endsGroup, cached. run.
  destruct (N.eqb_spec (objectGroupSize (fz w)) 0) as [|_]; [done|]. run.
  destruct (wrap64 (n + 1) mod objectGroupSize (fz w) =? 0) eqn:E; simpl.
  - by rewrite objectKeyForN_ok.
  - destruct last; [|done]. by rewrite objectKeyForN_ok.
Qed.

Lemma sealLoop_sealPure l : ∀ w st,
  objectGroupSize (fz w) ≠ 0 →
  sealLoop l st w = Returns (sealPure (objectGroupSize (fz w)) (cache (fz w)) l st) w.
Proof.
  induction l as [|n l IH]; intros w st Hgs; [done|].
  simpl. unfold bind at 1. rewrite sealStep_sealStepPure by done. by apply IH.
Qed.

Lemma sealStepPure_remainders gs c n last st :
  remainders (sealStepPure gs c n last st) =
  if endsGroup gs n then [] else remainders st ++ [n].
Proof.
  unfold sealStepPure. destruct (endsGroup gs n); [done|]. by destruct last.
Qed.

Lemma sealPure_remainders gs c l : ∀ st,
  remainders (sealPure gs c l st) = trailing gs (remainders st) l.
Proof.
  induction l as [|n l IH]; intros st; [done|].
  simpl. rewrite IH. unfold trailing. simpl. by rewrite sealStepPure_remainders.
Qed.

Lemma trailing_ends_group gs r l n :
  list.last l = Some n → endsGroup gs n = true → trailing gs r l = [].
Proof.
  intros [l' ->]%last_Some Hn. unfold trailing. by rewrite foldl_snoc, Hn.
Qed.

(** ** Uploads *)

Lemma UploadObjects_ok io ups : ∀ failed w,
  (∀ key, put_fault io key = None) →
  UploadObjects io ups failed w =
  Returns failed
    {| fz := fz w; bucket := putAll ups (bucket w);
       requests := rev (map (λ kv, ReqUpload kv.1 kv.2) ups) ++ requests w |}.
Proof.
  induction ups as [|[key body] ups IH]; intros failed w Hio.
  - by destruct w.
  - simpl. run. rewrite Hio. run. rewrite IH by done. simpl.
    by rewrite <- app_assoc.
Qed.

Lemma UploadWithIterator_ok io ups w :
  (∀ key, put_fault io key = None) →
  UploadWithIterator io ups w =
  Returns None
    {| fz := fz w; bucket := putAll ups (bucket w);
       requests := rev (map (λ kv, ReqUpload kv.1 kv.2) ups) ++ requests w |}.
Proof.
  intros Hio. unfold UploadWithIterator. unfold bind. by rewrite UploadObjects_ok.
Qed.

(** claim C3: when the write cache is not empty, begins at a multiple of
    the group size and ends with a number that closes a group, and every
    upload succeeds, [Sync] uploads the sealed groups, empties the sequence
    of cached numbers and panics with an index out of range on reading its
    first element; the frozen count is as it was. *)
Theorem Sync_only_complete_groups_panics io w n0 l n :
  size (cache (fz w)) ≠ 0%nat →
  cacheS (fz w) = n0 :: l →
  objectGroupSize (fz w) ≠ 0 →
  n0 mod objectGroupSize (fz w) = 0 →
  list.last (n0 :: l) = Some n →
  wrap64 (n + 1) mod objectGroupSize (fz w) = 0 →
  (∀ key, put_fault io key = None) →
  ∃ w', Sync io w = Panics PanicIndexOutOfRange w' ∧
        cacheS (fz w') = [] ∧
        frozen (fz w') = frozen (fz w) ∧
        bucket w' =
          putAll (uploads (sealPure (objectGroupSize (fz w)) (cache (fz w))
                             (n0 :: l) noSealing))
                 (bucket w).
Proof.
  intros Hsize HS Hgs Hmod Hlast Hend Hio.
  assert (remainders (sealPure (objectGroupSize (fz w)) (cache (fz w)) (cacheS (fz w)) noSealing) = []) as Hrem.
  { rewrite sealPure_remainders. rewrite HS. apply (trailing_ends_group _ _ _ n); [done|].
    unfold endsGroup. by rewrite Hend. }
  unfold Sync, pushCache. unfold bind, get_fz, ret.
  rewrite bool_decide_eq_false_2 by done.
  rewrite bool_decide_eq_false_2 by (by rewrite HS).
  rewrite (assertCacheBeginsAtMod_ok w n0 l) by done.
  rewrite sealLoop_sealPure by done.
  rewrite UploadWithIterator_ok by done.
  unfold modify_fz. cbn [fz bucket requests].
  rewrite assertCacheBeginsAtMod_nil by (cbn; by rewrite Hrem).
  eexists. split; [done|]. rewrite <- HS. cbn [fz cacheS frozen bucket set_cacheS set_cache]. by rewrite Hrem.
Qed.

End SealFacts.

(** The witness of C3: blocks 0..3 appended to a fresh store of group
    size 4 form one complete group. *)
Lemma Sync_only_complete_groups_panics_witness :
  ∃ w', Sync noFaults (world_of ((Toy.append 0 ;; Toy.append 1 ;; Toy.append 2 ;; Toy.append 3) (Toy.fresh 4))) =
        Panics PanicIndexOutOfRange w' ∧
        cacheS (fz w') = [] ∧
        frozen (fz w') = Some 4 ∧
        bucket w' = {[ awsKeyBlock 0 := JSONRecords [Toy.block 0; Toy.block 1; Toy.block 2; Toy.block 3] ]}.
Proof.
  apply (Sync_only_complete_groups_panics noFaults
           (world_of ((Toy.append 0 ;; Toy.append 1 ;; Toy.append 2 ;; Toy.append 3) (Toy.fresh 4)))
           0 [1; 2; 3] 3); by_eval.
Defined.

Section ReadFacts.

Context `{RC : RecordCodec} `{FS : FreezerSchema}.

Implicit Types (w : world) (f : freezerRemoteS3) (io : faults).




End ReadFacts.


(** ** Operations and the read-through cache *)

Create HintDb pres discriminated.

Section Preservation.

Context `{RC : RecordCodec} `{FS : FreezerSchema}.

Implicit Types (w : world) (f : freezerRemoteS3) (io : faults).

Context (R : world → world → Prop) `{!Transitive R}.

(** [R] looks at the read-through cache only. *)
Hypothesis R_frame : ∀ w f b r,
  retrieved f = retrieved (fz w) → R w {| fz := f; bucket := b; requests := r |}.

Lemma R_refl w : R w w.
Proof. destruct w as [f b r]. by apply R_frame. Qed.

Lemma preserves_ret {A} (a : A) : preserves R (ret a).
Proof. intros w a' w' [= _ <-]. apply R_refl. Qed.

Lemma preserves_panic {A} p : preserves R (panic p : M A).
Proof. by intros w a' w'. Qed.

Lemma preserves_bind {A B} (m : M A) (k : A → M B) :
  preserves R m → (∀ a, preserves R (k a)) → preserves R (bind m k).
Proof.
  intros Hm Hk w b w'. unfold bind.
  destruct (m w) as [a w1|] eqn:E; [|done].
  intros Hb. etrans; [by eapply Hm | by eapply Hk].
Qed.

Ltac pres_step :=
  match goal with
  | |- preserves _ (bind _ _) => apply preserves_bind; [|intros ?]
  | |- preserves _ (match ?x with _ => _ end) => destruct x
  | |- preserves _ _ => solve [eauto with pres]
  end.

Ltac pres := repeat pres_step.

Lemma preserves_get_fz : preserves R get_fz.
Proof. intros w a' w' [= _ <-]. apply R_refl. Qed.

Lemma preserves_get_bucket : preserves R get_bucket.
Proof. intros w a' w' [= _ <-]. apply R_refl. Qed.

Lemma preserves_log_request r : preserves R (log_request r).
Proof. intros w a' w' [= _ <-]. by apply R_frame. Qed.

Lemma preserves_modify_bucket g : preserves R (modify_bucket g).
Proof. intros w a' w' [= _ <-]. by apply R_frame. Qed.

Lemma preserves_modify_fz g :
  (∀ f, retrieved (g f) = retrieved f) → preserves R (modify_fz g).
Proof. intros Hg w a' w' [= _ <-]. by apply R_frame. Qed.

#[local] Hint Resolve preserves_ret preserves_panic preserves_get_fz
  preserves_get_bucket preserves_log_request preserves_modify_bucket : pres.
#[local] Hint Extern 1 (preserves _ (modify_fz _)) =>
  (apply preserves_modify_fz; intros []; reflexivity) : pres.

Lemma preserves_forM_ {A} (l : list A) (body : A → M unit) :
  (∀ x, preserves R (body x)) → preserves R (forM_ l body).
Proof. intros Hb. induction l as [|x l IH]; simpl; pres. Qed.

Lemma preserves_udiv a b : preserves R (udiv a b).
Proof. unfold udiv. pres. Qed.

Lemma preserves_umod a b : preserves R (umod a b).
Proof. unfold umod. pres. Qed.

#[local] Hint Resolve preserves_udiv preserves_umod : pres.

Lemma preserves_loadFrozen : preserves R loadFrozen.
Proof. unfold loadFrozen. pres. Qed.

Lemma preserves_storeFrozen v : preserves R (storeFrozen v).
Proof. unfold storeFrozen. pres. Qed.

Lemma preserves_addFrozen d : preserves R (addFrozen d).
Proof. unfold addFrozen. pres. Qed.

Lemma preserves_headerNumber v : preserves R (headerNumber v).
Proof. unfold headerNumber. pres. Qed.

Lemma preserves_objectKeyForN n : preserves R (objectKeyForN n).
Proof. unfold objectKeyForN. pres. Qed.

Lemma preserves_assertCacheBeginsAtMod : preserves R assertCacheBeginsAtMod.
Proof. unfold assertCacheBeginsAtMod. pres. Qed.

#[local] Hint Resolve preserves_loadFrozen preserves_storeFrozen
  preserves_addFrozen preserves_headerNumber preserves_objectKeyForN
  preserves_assertCacheBeginsAtMod : pres.

Lemma preserves_Download io key : preserves R (Download io key).
Proof. unfold Download. pres. Qed.

Lemma preserves_PutObject io key body : preserves R (PutObject io key body).
Proof. unfold PutObject. pres. Qed.

Lemma preserves_setIndexMarker io n : preserves R (setIndexMarker io n).
Proof. apply preserves_PutObject. Qed.

Lemma preserves_UploadObjects io ups : ∀ failed,
  preserves R (UploadObjects io ups failed).
Proof. induction ups as [|[key body] ups IH]; intros failed; simpl; pres. Qed.

#[local] Hint Resolve preserves_Download preserves_PutObject
  preserves_setIndexMarker preserves_UploadObjects : pres.

Lemma preserves_UploadWithIterator io ups : preserves R (UploadWithIterator io ups).
Proof. unfold UploadWithIterator. pres. Qed.

Lemma preserves_BatchDelete io marker : preserves R (BatchDelete io marker).
Proof. unfold BatchDelete. pres. Qed.

Lemma preserves_sealStep n lst st : preserves R (sealStep n lst st).
Proof. unfold sealStep. pres. Qed.

#[local] Hint Resolve preserves_UploadWithIterator preserves_BatchDelete
  preserves_sealStep : pres.

Lemma preserves_sealLoop l : ∀ st, preserves R (sealLoop l st).
Proof. induction l as [|n l IH]; intros st; simpl; pres. Qed.

#[local] Hint Resolve preserves_sealLoop : pres.

Lemma preserves_AppendAncient number hash header body receipts td :
  preserves R (AppendAncient number hash header body receipts td).
Proof. unfold AppendAncient. pres. Qed.

Lemma truncateScan_cachedAt items l : ∀ i c a,
  (truncateScan items i l c a).2 = None → a = None ∧ items ∉ l.
Proof.
  induction l as [|v l IH]; intros i c a; simpl.
  - intros ->. split; [done|]. by intros ?%elem_of_nil.
  - intros [Ha Hl]%IH. destruct (N.eqb_spec v items) as [->|Hne]; [done|].
    split; [done|]. intros [?|?]%elem_of_cons; congruence.
Qed.

(** [TruncateAncients] to a number that is among the cached ones. *)
Lemma preserves_TruncateAncients_cached io items w r w' :
  items ∈ cacheS (fz w) →
  TruncateAncients io items w = Returns r w' → R w w'.
Proof.
  intros Hin. unfold TruncateAncients. unfold bind at 1.
  destruct (assertCacheBeginsAtMod w) as [[] w1|] eqn:E; [|done].
  apply assertCacheBeginsAtMod_inv in E as [-> _].
  unfold bind at 1. unfold get_fz at 1.
  destruct (truncateScan items 0 (cacheS (fz w)) (cache (fz w)) None)
    as [c [i|]] eqn:ES.
  - apply (preserves_bind _ _); [pres|intros ?]. pres.
  - pose proof (truncateScan_cachedAt items (cacheS (fz w)) 0%nat (cache (fz w)) None) as H.
    rewrite ES in H. by destruct H.
Qed.

(** From here on [R] must also allow the read-through cache to be emptied. *)
Hypothesis R_clear : ∀ w f b r,
  retrieved f = ∅ → R w {| fz := f; bucket := b; requests := r |}.

Lemma preserves_clear_retrieved : preserves R (modify_fz (set_retrieved ∅)).
Proof. intros w a' w' [= _ <-]. by apply R_clear. Qed.

#[local] Hint Resolve preserves_clear_retrieved | 0 : pres.

Lemma preserves_pushCache io : preserves R (pushCache io).
Proof. unfold pushCache. pres. Qed.

#[local] Hint Resolve preserves_pushCache : pres.

Lemma preserves_Sync io : preserves R (Sync io).
Proof. unfold Sync. pres. Qed.

Lemma preserves_TruncateAncients io items : preserves R (TruncateAncients io items).
Proof.
  unfold TruncateAncients. pres.
  all: try (apply preserves_forM_; intros ?; pres).
Qed.

End Preservation.

#[global] Instance keepsRetrieved_trans `{RC : RecordCodec} : Transitive keepsRetrieved.
Proof. unfold keepsRetrieved. intros w1 w2 w3 H1 H2. congruence. Qed.

#[global] Instance keepsOrEmptiesRetrieved_trans `{RC : RecordCodec} :
  Transitive keepsOrEmptiesRetrieved.
Proof.
  unfold keepsOrEmptiesRetrieved. intros w1 w2 w3 [H1|H1] [H2|H2];
    first [left; congruence | right; congruence].
Qed.

Section ReadThroughCache.

Context `{RC : RecordCodec} `{FS : FreezerSchema}.

Implicit Types (w : world) (f : freezerRemoteS3) (io : faults).

Lemma keepsRetrieved_frame w f b r :
  retrieved f = retrieved (fz w) →
  keepsRetrieved w {| fz := f; bucket := b; requests := r |}.
Proof. done. Qed.

Lemma keepsOrEmptiesRetrieved_frame w f b r :
  retrieved f = retrieved (fz w) →
  keepsOrEmptiesRetrieved w {| fz := f; bucket := b; requests := r |}.
Proof. by left. Qed.

Lemma keepsOrEmptiesRetrieved_clear w f b r :
  retrieved f = ∅ →
  keepsOrEmptiesRetrieved w {| fz := f; bucket := b; requests := r |}.
Proof. by right. Qed.

Lemma pushCache_clears_retrieved io w w' :
  cacheS (fz w) ≠ [] →
  pushCache io w = Returns None w' →
  retrieved (fz w') = ∅.
Proof.
  intros HS. unfold pushCache. unfold bind at 1. unfold get_fz at 1.
  rewrite bool_decide_eq_false_2 by (by destruct (cacheS (fz w))).
  unfold bind at 1. destruct (assertCacheBeginsAtMod w) as [[] w1|]; [|done].
  unfold bind at 1. destruct (sealLoop _ _ w1) as [st w2|]; [|done].
  unfold bind at 1. destruct (UploadWithIterator _ _ w2) as [[e|] w3|]; [done| |done].
  unfold bind at 1. unfold modify_fz at 1.
  unfold bind at 1. unfold modify_fz at 1.
  unfold bind at 1. destruct (assertCacheBeginsAtMod _) as [[] w4|]; [|done].
  unfold bind, modify_fz, ret. by intros [= <-].
Qed.

(** claim C9, as amended: the read-through cache is emptied by a
    successful push of a write cache that is not empty, so it is empty after
    every [Sync] that returns nil having found the write cache non-empty.
    [AppendAncient] never changes it. [TruncateAncients] leaves it as it
    was when the target is one of the cached numbers, and otherwise leaves
    it as it was or empties it. *)
Theorem retrieved_after_mutation io w w' :
  (∀ number hash header body receipts td r,
     AppendAncient number hash header body receipts td w = Returns r w' →
     retrieved (fz w') = retrieved (fz w)) ∧
  (size (cache (fz w)) ≠ 0%nat → cacheS (fz w) ≠ [] →
   Sync io w = Returns None w' → retrieved (fz w') = ∅) ∧
  (∀ items r, TruncateAncients io items w = Returns r w' →
     (items ∈ cacheS (fz w) → retrieved (fz w') = retrieved (fz w)) ∧
     (retrieved (fz w') = retrieved (fz w) ∨ retrieved (fz w') = ∅)).
Proof.
  split; [|split].
  - intros number hash header body receipts td r H.
    by apply (preserves_AppendAncient keepsRetrieved keepsRetrieved_frame) in H.
  - intros Hsize HS. unfold Sync. unfold bind at 1. unfold get_fz at 1.
    rewrite bool_decide_eq_false_2 by done. unfold bind at 1.
    destruct (pushCache io w) as [[e|] w1|] eqn:E; [done| |done].
    apply pushCache_clears_retrieved in E; [|done]. intros H.
    assert (keepsRetrieved w1 w') as Hk.
    { revert H. apply (preserves_bind keepsRetrieved).
      - apply (preserves_loadFrozen keepsRetrieved keepsRetrieved_frame).
      - intros n. apply (preserves_setIndexMarker keepsRetrieved keepsRetrieved_frame). }
    unfold keepsRetrieved in Hk. congruence.
  - intros items r H. split.
    + intros Hin.
      by apply (preserves_TruncateAncients_cached keepsRetrieved keepsRetrieved_frame) in H.
    + by apply (preserves_TruncateAncients keepsOrEmptiesRetrieved
                  keepsOrEmptiesRetrieved_frame keepsOrEmptiesRetrieved_clear) in H.
Qed.

End ReadThroughCache.

(** The witness of C9 (amended): a [Sync] of the store that holds records
    4 and 5 in its write cache and the group of records 0..3 in its
    read-through cache empties the latter. *)
Lemma retrieved_after_mutation_witness :
  dom (retrieved (fz Toy.afterAppend)) = {[ 0; 1; 2; 3 ]} ∧
  retrieved (fz (world_of (Sync noFaults Toy.afterAppend))) = ∅.
Proof.
  split; [by_eval|].
  destruct (retrieved_after_mutation noFaults Toy.afterAppend
              (world_of (Sync noFaults Toy.afterAppend))) as (_ & H & _).
  apply H; by_eval.
Defined.

(** claim C9, the counterexample: the read-through cache holds the group
    of records 0..3; [AppendAncient] of record 5 returns nil and
    [TruncateAncients] to 5 returns nil, and after either the read-through
    cache holds what it held before. *)
Lemma retrieved_survives_append_and_truncate :
  dom (retrieved (fz Toy.afterRead)) = {[ 0; 1; 2; 3 ]} ∧
  ∃ w1 w2,
    Toy.append 5 Toy.afterRead = Returns None w1 ∧
    retrieved (fz w1) = retrieved (fz Toy.afterRead) ∧
    TruncateAncients noFaults 5 w1 = Returns None w2 ∧
    retrieved (fz w2) = retrieved (fz Toy.afterRead).
Proof.
  split; [by_eval|].
  exists Toy.afterAppend, (world_of (TruncateAncients noFaults 5 Toy.afterAppend)).
  split; [by_eval|]. split; [by_eval|]. split; by_eval.
Qed.

(** ** Two [Sync]s in a row *)

Section SyncTwice.

Context `{RC : RecordCodec} `{FS : FreezerSchema}.

Implicit Types (w : world) (f : freezerRemoteS3) (io : faults) (st : sealing)
  (c : gmap N AncientObjectS3) (l r : list N).

Lemma UploadObjects_inv io ups : ∀ failed w w',
  UploadObjects io ups failed w = Returns false w' →
  failed = false ∧
  w' = {| fz := fz w; bucket := putAll ups (bucket w);
          requests := rev (map (λ kv, ReqUpload kv.1 kv.2) ups) ++ requests w |}.
Proof.
  induction ups as [|[key body] ups IH]; intros failed w w'.
  - intros [= -> <-]. by destruct w.
  - simpl. unfold bind at 1. unfold log_request at 1.
    destruct (put_fault io key).
    + by intros [[=] _]%IH.
    + unfold bind at 1. unfold modify_bucket at 1. intros [-> ->]%IH.
      split; [done|]. simpl. by rewrite <- app_assoc.
Qed.

Lemma UploadWithIterator_inv io ups w w' :
  UploadWithIterator io ups w = Returns None w' →
  w' = {| fz := fz w; bucket := putAll ups (bucket w);
          requests := rev (map (λ kv, ReqUpload kv.1 kv.2) ups) ++ requests w |}.
Proof.
  unfold UploadWithIterator, bind.
  destruct (UploadObjects io ups false w) as [[] w1|] eqn:E; [done| |done].
  apply UploadObjects_inv in E as [_ ->]. by intros [= <-].
Qed.

Lemma putAll_snoc ups key body (b : gmap string s3_body) :
  putAll (ups ++ [(key, body)]) b = <[key := body]> (putAll ups b).
Proof. unfold putAll. by rewrite foldl_snoc. Qed.

Lemma awsKeyBlock_not_marker n : awsKeyBlock n ≠ indexMarkerKey.
Proof. unfold awsKeyBlock, indexMarkerKey. simpl. discriminate. Qed.

(** *** The numbers that stay cached *)

Lemma trailing_no_end gs l : ∀ r,
  Forall (λ n, endsGroup gs n = false) r →
  Forall (λ n, endsGroup gs n = false) (trailing gs r l).
Proof.
  induction l as [|x l IH]; intros r Hr; [done|].
  unfold trailing. simpl. apply IH.
  destruct (endsGroup gs x) eqn:E; [done|].
  apply Forall_app. split; [done|]. by apply Forall_singleton.
Qed.

Lemma sliceIndexOf_from_None l n : ∀ i,
  sliceIndexOf_from i l n = None ↔ n ∉ l.
Proof.
  induction l as [|x l IH]; intros i; simpl.
  - split; [|done]. intros _ ?%elem_of_nil. done.
  - destruct (N.eqb_spec x n) as [->|Hne].
    + split; [done|]. intros H. destruct H. by left.
    + rewrite IH, not_elem_of_cons. split; [by intros ?|by intros [_ ?]].
Qed.

Lemma evict_cons rem x l c :
  evict rem (x :: l) c =
  evict rem l (match sliceIndexOf rem x with
               | None => delete x c
               | Some _ => c
               end).
Proof. done. Qed.

Lemma evict_lookup rem n l : ∀ c,
  n ∈ rem → evict rem l c !! n = c !! n.
Proof.
  induction l as [|x l IH]; intros c Hn; [done|].
  rewrite evict_cons, IH by done.
  destruct (sliceIndexOf rem x) eqn:E; [done|].
  apply lookup_delete_ne. apply sliceIndexOf_from_None in E. congruence.
Qed.

Lemma evict_id rem l : ∀ c, l ⊆ rem → evict rem l c = c.
Proof.
  induction l as [|x l IH]; intros c Hsub; [done|].
  rewrite evict_cons.
  destruct (sliceIndexOf rem x) eqn:E.
  - apply IH. set_solver.
  - apply sliceIndexOf_from_None in E. set_solver.
Qed.

(** *** The last object sealed *)

Lemma sealPure_last_upload gs c l : ∀ st,
  l ≠ [] →
  set st = map (cached c) (remainders st) →
  remainders (sealPure gs c l st) ≠ [] →
  ∃ ups n,
    list.last l = Some n ∧
    list.last (remainders (sealPure gs c l st)) = Some n ∧
    uploads (sealPure gs c l st) =
      ups ++ [(groupKey gs n,
               json_Marshal (map (cached c) (remainders (sealPure gs c l st))))].
Proof.
  induction l as [|n l IH]; intros st Hl Hinv; [done|].
  simpl. destruct l as [|n' l].
  - simpl. unfold sealStepPure. destruct (endsGroup gs n); simpl; [done|].
    intros _. exists (uploads st), n. split; [done|]. split.
    + by rewrite last_snoc.
    + by rewrite map_app, Hinv.
  - rewrite bool_decide_eq_false_2 by done. intros Hrem.
    destruct (IH (sealStepPure gs c n false st)) as (ups & m & H1 & H2 & H3);
      [done| |done|].
    + unfold sealStepPure. destruct (endsGroup gs n); simpl; [done|].
      by rewrite map_app, Hinv.
    + exists ups, m. split; [exact H1|]. split; [exact H2 | exact H3].
Qed.

Lemma sealPure_no_end gs c l : ∀ st,
  l ≠ [] →
  Forall (λ n, endsGroup gs n = false) l →
  ∃ n, list.last l = Some n ∧
       sealPure gs c l st =
       {| set := [];
          uploads := uploads st ++
                     [(groupKey gs n, json_Marshal (set st ++ map (cached c) l))];
          remainders := remainders st ++ l |}.
Proof.
  induction l as [|n l IH]; intros st Hl Hall; [done|].
  inversion_clear Hall as [|? ? Hn Hall'].
  simpl. destruct l as [|n' l].
  - simpl. unfold sealStepPure. rewrite Hn. simpl. by exists n.
  - rewrite bool_decide_eq_false_2 by done.
    destruct (IH (sealStepPure gs c n false st)) as (m & H1 & H2); [done|done|].
    exists m. split; [exact H1|]. rewrite H2. unfold sealStepPure. rewrite Hn. simpl.
    by rewrite <- !app_assoc.
Qed.

(** *** What a successful push leaves behind *)

Lemma pushCache_inv io w w' :
  cacheS (fz w) ≠ [] →
  pushCache io w = Returns None w' →
  let gs := objectGroupSize (fz w) in
  let st := sealPure gs (cache (fz w)) (cacheS (fz w)) noSealing in
  gs ≠ 0 ∧
  remainders st ≠ [] ∧
  w' = {| fz := set_retrieved ∅
                  (set_cacheS (remainders st)
                     (set_cache (evict (remainders st) (cacheS (fz w)) (cache (fz w)))
                        (fz w)));
          bucket := putAll (uploads st) (bucket w);
          requests := rev (map (λ kv, ReqUpload kv.1 kv.2) (uploads st)) ++ requests w |}.
Proof.
  intros HS. unfold pushCache. unfold bind at 1. unfold get_fz at 1.
  rewrite bool_decide_eq_false_2 by (by destruct (cacheS (fz w))).
  unfold bind at 1.
  destruct (assertCacheBeginsAtMod w) as [[] w1|] eqn:E1; [|done].
  apply assertCacheBeginsAtMod_inv in E1 as (-> & Hgs & _).
  unfold bind at 1. rewrite sealLoop_sealPure by done.
  unfold bind at 1.
  destruct (UploadWithIterator _ _ w) as [[e|] w3|] eqn:E3; [done| |done].
  apply UploadWithIterator_inv in E3 as ->.
  unfold bind at 1. unfold modify_fz at 1.
  unfold bind at 1. unfold modify_fz at 1.
  unfold bind at 1.
  destruct (assertCacheBeginsAtMod _) as [[] w4|] eqn:E4; [|done].
  apply assertCacheBeginsAtMod_inv in E4 as (-> & _ & n0 & l0 & E4 & _).
  unfold bind, modify_fz, ret. intros [= <-]. simpl in *.
  split; [done|]. split; [by rewrite E4|]. done.
Qed.

End SyncTwice.

Section SyncTwiceMain.

Context `{RC : RecordCodec} `{FS : FreezerSchema}.

Implicit Types (w : world) (f : freezerRemoteS3) (io : faults) (st : sealing)
  (c : gmap N AncientObjectS3) (l r : list N).

Lemma setIndexMarker_inv io n w w' :
  setIndexMarker io n w = Returns None w' →
  w' = {| fz := fz w;
          bucket := <[indexMarkerKey := Text (FormatUint n)]> (bucket w);
          requests := ReqPutObject indexMarkerKey (Text (FormatUint n)) :: requests w |}.
Proof.
  unfold setIndexMarker, PutObject. run.
  destruct (put_fault io indexMarkerKey); [done|]. by intros [= <-].
Qed.

Lemma pushCache_nil io w :
  cacheS (fz w) = [] → pushCache io w = Returns None w.
Proof. intros E. unfold pushCache. run. by rewrite E. Qed.

Lemma Sync_inv io w w1 :
  Sync io w = Returns None w1 →
  (size (cache (fz w)) = 0%nat ∧ w1 = w) ∨
  (size (cache (fz w)) ≠ 0%nat ∧
   ∃ wp n, pushCache io w = Returns None wp ∧
           frozen (fz wp) = Some n ∧
           w1 = {| fz := fz wp;
                   bucket := <[indexMarkerKey := Text (FormatUint n)]> (bucket wp);
                   requests := ReqPutObject indexMarkerKey (Text (FormatUint n))
                               :: requests wp |}).
Proof.
  unfold Sync. unfold bind at 1. unfold get_fz at 1.
  destruct (decide (size (cache (fz w)) = 0%nat)) as [E|E].
  - rewrite bool_decide_eq_true_2 by done. intros [= <-]. by left.
  - rewrite bool_decide_eq_false_2 by done. unfold bind at 1.
    destruct (pushCache io w) as [[e|] wp|] eqn:EP; [done| |done].
    unfold loadFrozen. unfold bind at 1 2. unfold get_fz at 1.
    destruct (frozen (fz wp)) as [n|] eqn:EF; [|done].
    unfold ret at 1. intros ->%setIndexMarker_inv.
    right. split; [done|]. by exists wp, n.
Qed.

(** A store as a successful [Sync] of a non-empty sequence of cached
    numbers leaves it: the cached numbers are the open trailing group, whose
    object in the bucket holds exactly the cached records, and the marker
    holds the frozen count. *)
Lemma Sync_settled io w w2 n m :
  objectGroupSize (fz w) ≠ 0 →
  cacheS (fz w) ≠ [] →
  Forall (λ k, endsGroup (objectGroupSize (fz w)) k = false) (cacheS (fz w)) →
  list.last (cacheS (fz w)) = Some m →
  retrieved (fz w) = ∅ →
  frozen (fz w) = Some n →
  bucket w !! groupKey (objectGroupSize (fz w)) m =
    Some (json_Marshal (map (cached (cache (fz w))) (cacheS (fz w)))) →
  bucket w !! indexMarkerKey = Some (Text (FormatUint n)) →
  Sync io w = Returns None w2 →
  fz w2 = fz w ∧ bucket w2 = bucket w ∧
  (requests w2 = requests w ∨
   requests w2 =
     ReqPutObject indexMarkerKey (Text (FormatUint n))
     :: ReqUpload (groupKey (objectGroupSize (fz w)) m)
          (json_Marshal (map (cached (cache (fz w))) (cacheS (fz w))))
     :: requests w).
Proof.
  intros Hgs HS Hall Hlast Hret Hfr Hgroup Hmarker
    [[_ ->]|(_ & wp & n' & HP & Hfr' & ->)]%Sync_inv; [by auto|].
  apply pushCache_inv in HP as (_ & _ & ->); [|done].
  destruct (sealPure_no_end (objectGroupSize (fz w)) (cache (fz w)) (cacheS (fz w))
              noSealing HS Hall) as (m' & Hlast' & ->).
  rewrite Hlast in Hlast'. injection Hlast' as <-.
  simpl in *. rewrite evict_id by done.
  assert (n' = n) as -> by congruence.
  rewrite (insert_id (bucket w)) by done. rewrite insert_id by done.
  split; [|split; [done|by right]].
  destruct (fz w); simpl in *. by subst.
Qed.

(** claim C5, as amended: when two [Sync]s in a row both return nil, the
    second leaves the store (so the frozen count) and the bucket (so the
    marker and every group object) as the first left them. It makes no
    request at all when the write cache is empty; otherwise it rewrites the
    marker with the same count, and, unless the sequence of cached numbers
    is empty, uploads one object before that: the group of the cached
    records, under the key and with the body the bucket already holds. *)
Theorem Sync_twice io1 io2 w w1 w2 :
  Sync io1 w = Returns None w1 →
  Sync io2 w1 = Returns None w2 →
  fz w2 = fz w1 ∧ bucket w2 = bucket w1 ∧
  (requests w2 = requests w1 ∨
   ∃ n, frozen (fz w1) = Some n ∧
     (requests w2 =
        ReqPutObject indexMarkerKey (Text (FormatUint n)) :: requests w1 ∨
      ∃ m, list.last (cacheS (fz w1)) = Some m ∧
        let key := groupKey (objectGroupSize (fz w1)) m in
        let body := json_Marshal (map (cached (cache (fz w1))) (cacheS (fz w1))) in
        bucket w1 !! key = Some body ∧
        requests w2 =
          ReqPutObject indexMarkerKey (Text (FormatUint n))
          :: ReqUpload key body :: requests w1)).
Proof.
  intros [[E ->]|(Hsize & wp & n & HP & Hfr & ->)]%Sync_inv H2.
  { apply Sync_inv in H2 as [[_ ->]|[? _]]; [by auto|done]. }
  destruct (decide (cacheS (fz w) = [])) as [HS|HS].
  { rewrite pushCache_nil in HP by done. injection HP as <-.
    apply Sync_inv in H2 as [[_ ->]|(_ & wp' & n' & HP' & Hfr' & ->)]; [by auto|].
    rewrite pushCache_nil in HP' by done. injection HP' as <-.
    simpl in *. assert (n' = n) as -> by congruence.
    split; [done|]. split; [by rewrite insert_insert_eq|].
    right. exists n. split; [done|]. by left. }
  apply pushCache_inv in HP as (Hgs & Hrem & ->); [|done].
  set (gs := objectGroupSize (fz w)) in *.
  set (st := sealPure gs (cache (fz w)) (cacheS (fz w)) noSealing) in *.
  destruct (sealPure_last_upload gs (cache (fz w)) (cacheS (fz w)) noSealing)
    as (ups & m & _ & Hlast & Hups); [done|done|done|].
  fold st in Hlast, Hups.
  assert (map (cached (evict (remainders st) (cacheS (fz w)) (cache (fz w)))) (remainders st)
          = map (cached (cache (fz w))) (remainders st)) as Hsame.
  { apply map_ext_in. intros k Hk%list_elem_of_In. unfold cached.
    by rewrite evict_lookup. }
  eapply (Sync_settled io2 _ w2 n m) in H2; simpl; try done.
  - destruct H2 as (H21 & H22 & H23). simpl in *.
    split; [done|]. split; [done|].
    destruct H23 as [H23|H23]; [by left|].
    right. exists n. split; [done|]. right. exists m. split; [done|].
    simpl. split; [|done].
    rewrite lookup_insert_ne by (symmetry; apply awsKeyBlock_not_marker).
    rewrite Hups, putAll_snoc, lookup_insert_eq. by rewrite Hsame.
  - unfold st. rewrite sealPure_remainders. by apply trailing_no_end.
  - rewrite lookup_insert_ne by (symmetry; apply awsKeyBlock_not_marker).
    rewrite Hups, putAll_snoc, lookup_insert_eq. by rewrite Hsame.
  - by rewrite lookup_insert_eq.
Qed.

End SyncTwiceMain.

(** The witness of C5 (amended): one record appended, then two [Sync]s. *)
Lemma Sync_twice_witness :
  fz (world_of (Sync noFaults Toy.syncedOnce)) = fz Toy.syncedOnce ∧
  bucket (world_of (Sync noFaults Toy.syncedOnce)) = bucket Toy.syncedOnce.
Proof.
  destruct (Sync_twice noFaults noFaults Toy.appendedOne Toy.syncedOnce
              (world_of (Sync noFaults Toy.syncedOnce)))
    as (H1 & H2 & _); [by_eval | by_eval |].
  by split.
Defined.

(** claim C5, the counterexample: one record appended to a fresh store of
    group size 4. The first [Sync] returns nil; the second [Sync], with no
    append in between, returns nil too and uploads the object of the group
    of record 0 again. *)
Lemma Sync_twice_uploads_again :
  Sync noFaults Toy.appendedOne = Returns None Toy.syncedOnce ∧
  ∃ w2, Sync noFaults Toy.syncedOnce = Returns None w2 ∧
        requests w2 =
          ReqPutObject indexMarkerKey (Text "1")
          :: ReqUpload (awsKeyBlock 0) (JSONRecords [Toy.block 0])
          :: requests Toy.syncedOnce.
Proof.
  split; [by_eval|].
  exists (world_of (Sync noFaults Toy.syncedOnce)). split; by_eval.
Qed.

(** ** Truncation at a group boundary *)

Section Steps.

Context `{RC : RecordCodec}.

Lemma bind_eval {A B} (m : M A) (k : A → M B) w a w1 :
  m w = Returns a w1 → bind m k w = k a w1.
Proof. unfold bind. by intros ->. Qed.

End Steps.

(** One step of a computation in [M]: the first action of a [bind] is
    run on its own and the rest goes on from its result. *)
Ltac step_same a :=
  lazymatch goal with
  | |- bind ?m ?k ?w = _ => rewrite (bind_eval m k w a w) by by_eval
  end.

Ltac step_by tac :=
  lazymatch goal with
  | |- bind ?m ?k ?w = _ =>
      let H := fresh in
      eassert (m w = Returns _ _) as H; [tac | rewrite (bind_eval m k w _ _ H); clear H]
  end.

Section TruncateBoundary.

Context `{RC : RecordCodec} `{FS : FreezerSchema}.

Implicit Types (w : world) (io : faults) (o : N → AncientObjectS3) (bs : N → blobs).

Lemma appendBlobs_decoded number b obj :
  decodes b obj →
  appendBlobs number b =
  (modify_fz (λ f, set_cache (<[number := obj]> (cache f)) f) ;;
   modify_fz (λ f, set_cacheS (cacheS f ++ [number]) f) ;;
   assertCacheBeginsAtMod ;;
   addFrozen 1 ;;
   ret None).
Proof. unfold decodes, appendBlobs, AppendAncient. by intros ->. Qed.

Lemma TruncateAncients_unfold io items :
  TruncateAncients io items =
  (assertCacheBeginsAtMod ;;
   f ← get_fz;
   let '(c, cachedAt) := truncateScan items 0 (cacheS f) (cache f) None in
   modify_fz (set_cache c) ;;
   match cachedAt with
   | Some i => truncateCached io items i
   | None => truncateRemote io items (objectGroupSize f)
   end).
Proof. reflexivity. Qed.

Lemma rebuild_loop_numbered items target : ∀ nums w,
  Forall2 (λ v k, ∃ h, Header v = Some h ∧ header_Number h = k) target nums →
  forM_ target (λ t,
    n ← headerNumber t;
    if n <? items then
      modify_fz (λ f, set_cache (<[n := t]> (cache f)) (set_cacheS (cacheS f ++ [n]) f))
    else ret ()) w =
  Returns ()
    {| fz := set_cache (foldl (λ c vk, if vk.2 <? items then <[vk.2 := vk.1]> c else c)
                          (cache (fz w)) (zip target nums))
               (set_cacheS (cacheS (fz w) ++ filter (λ k, k < items) nums) (fz w));
       bucket := bucket w; requests := requests w |}.
Proof.
  induction target as [|v target IH]; intros nums w Hall.
  - inversion_clear Hall. destruct w as [[] ? ?]. simpl. by rewrite app_nil_r.
  - inversion Hall as [|? k ? nums' (h & Hh & Hk) Hrest]; subst.
    cbn [forM_ zip zip_with foldl fst snd]. rewrite filter_cons.
    destruct (N.ltb_spec (header_Number h) items) as [Hlt|Hge].
    + rewrite decide_True by done.
      erewrite bind_eval.
      2:{ unfold bind, headerNumber, ret, modify_fz. rewrite Hh.
          apply N.ltb_lt in Hlt. by rewrite Hlt. }
      rewrite (IH nums') by done. cbn. by rewrite <- app_assoc.
    + rewrite decide_False by lia.
      erewrite bind_eval.
      2:{ unfold bind, headerNumber, ret, modify_fz. rewrite Hh.
          apply N.ltb_ge in Hge. by rewrite Hge. }
      by rewrite (IH nums') by done.
Qed.

(** The remote branch of [TruncateAncients] rebuilding the write cache
    from the group object of the target, whose records carry the numbers
    [nums] in their headers. *)
Lemma refillFromRemote_numbered io items md target nums w :
  md ≠ 0 →
  objectGroupSize (fz w) ≠ 0 →
  get_fault io (groupKey (objectGroupSize (fz w)) items) = None →
  bucket w !! groupKey (objectGroupSize (fz w)) items = Some (JSONRecords target) →
  Forall2 (λ v k, ∃ h, Header v = Some h ∧ header_Number h = k) target nums →
  refillFromRemote io items md w =
  Returns None
    {| fz := {| frozen := frozen (fz w); objectGroupSize := objectGroupSize (fz w);
                retrieved := retrieved (fz w);
                cache := foldl (λ c vk, if vk.2 <? items then <[vk.2 := vk.1]> c else c)
                           ∅ (zip target nums);
                cacheS := merge_sort N.le (filter (λ k, k < items) nums) |};
       bucket := bucket w;
       requests := ReqDownload (groupKey (objectGroupSize (fz w)) items) :: requests w |}.
Proof.
  intros Hmd Hgs Hio Hb Hall. unfold refillFromRemote.
  destruct (N.eqb_spec md 0) as [|_]; [done|]. cbn [negb].
  rewrite (bind_eval _ _ _ _ _ (objectKeyForN_ok w items Hgs)).
  erewrite bind_eval.
  2:{ unfold Download, bind, log_request, get_bucket, ret. rewrite Hio. cbn [bucket].
      by rewrite Hb. }
  cbn [json_Unmarshal].
  erewrite bind_eval; [|by unfold modify_fz].
  erewrite bind_eval; [|exact (rebuild_loop_numbered items target nums _ Hall)].
  unfold bind, modify_fz, ret. by cbn.
Qed.

Lemma RLPBytesForKind_tables v w :
  distinctTables →
  RLPBytesForKind v freezerHashTable w = Returns (Hash v) w ∧
  RLPBytesForKind v freezerHeaderTable w = Returns (rlp_EncodeHeader (Header v)) w ∧
  RLPBytesForKind v freezerBodiesTable w = Returns (rlp_EncodeBody (Body v)) w ∧
  RLPBytesForKind v freezerReceiptTable w = Returns (rlp_EncodeReceipts (Receipts v)) w ∧
  RLPBytesForKind v freezerDifficultyTable w =
    Returns (rlp_EncodeDifficulty (Difficulty v)) w.
Proof.
  unfold distinctTables. rewrite !list.NoDup_cons, !not_elem_of_cons.
  intros ((H12 & H13 & H14 & H15 & _) & (H23 & H24 & H25 & _) & (H34 & H35 & _) &
          (H45 & _) & _).
  unfold RLPBytesForKind.
  repeat split;
    repeat (first [ rewrite String.eqb_refl
                  | rewrite (proj2 (String.eqb_neq _ _)) by congruence ]);
    done.
Qed.

Lemma Ancient_cached io kind number n v w :
  frozen (fz w) = Some n → number < n → cache (fz w) !! number = Some v →
  Ancient io kind number w = (b ← RLPBytesForKind v kind; ret (Some b, None)) w.
Proof.
  intros Hfr Hlt Hc. unfold Ancient, loadFrozen. unfold bind at 1 2. unfold get_fz at 1.
  rewrite Hfr. unfold ret at 1. destruct (N.leb_spec n number); [lia|].
  unfold bind at 1. unfold get_fz at 1. by rewrite Hc.
Qed.

Lemma servesBlobs_cached w number n b v :
  distinctTables →
  decodes b v →
  frozen (fz w) = Some n → number < n → cache (fz w) !! number = Some v →
  servesBlobs w number b.
Proof.
  intros Hd Hdec Hfr Hlt Hc io.
  destruct (RLPBytesForKind_tables v w Hd) as (E1 & E2 & E3 & E4 & E5).
  rewrite !(Ancient_cached io _ number n v w) by done.
  unfold bind. rewrite E1, E2, E3, E4, E5. unfold ret.
  unfold decodes, NewAncientObjectS3 in Hdec.
  destruct (rlp_DecodeHeader (headerB b)); [|done].
  destruct (rlp_DecodeBody (bodyB b)); [|done].
  destruct (rlp_DecodeReceipts (receiptsB b)); [|done].
  destruct (rlp_DecodeDifficulty (tdB b)); [|done].
  injection Hdec as <-. done.
Qed.


(** claim C4: records 0..10, each carrying its number in its header, are
    appended to a fresh store of group size 4, and the store is truncated
    to 5, either at once or after a [Sync] that has uploaded the three
    groups. In both cases the frozen count is then 5; record 4 is read back
    as appended, for each of the five kinds; records 5 and above read as nil
    without error; and after the following [Sync] the only group object
    whose key is not below the key of record 4 holds record 4 alone. When
    the records had been uploaded, the truncation fetches the group of
    records 4..7, keeps record 4, deletes the group of records 8..10 and
    uploads the rebuilt group. *)
Theorem Truncate_boundary bs o :
  distinctTables →
  Forall (λ i, decodes (bs i) (o i) ∧ ∃ h, Header (o i) = Some h ∧ header_Number h = i)
    [0; 1; 2; 3; 4; 5; 6; 7; 8; 9; 10] →
  let g0 := JSONRecords [o 0; o 1; o 2; o 3] in
  let g4 := JSONRecords [o 4; o 5; o 6; o 7] in
  let g8 := JSONRecords [o 8; o 9; o 10] in
  let w1 := {| fz := staged 4 11 o [0; 1; 2; 3; 4; 5; 6; 7; 8; 9; 10];
               bucket := ∅; requests := [] |} in
  let w2 := {| fz := staged 4 5 o [0; 1; 2; 3; 4];
               bucket := {[ indexMarkerKey := Text "5" ]};
               requests := [ReqPutObject indexMarkerKey (Text "5")] |} in
  let w3 := {| fz := staged 4 5 o [4];
               bucket := <[indexMarkerKey := Text "5"]>
                           (<[awsKeyBlock 0 := g0]>
                              (<[awsKeyBlock 4 := JSONRecords [o 4]]> ∅));
               requests := [ReqPutObject indexMarkerKey (Text "5");
                            ReqUpload (awsKeyBlock 4) (JSONRecords [o 4]);
                            ReqUpload (awsKeyBlock 0) g0;
                            ReqPutObject indexMarkerKey (Text "5")] |} in
  let v1 := {| fz := staged 4 11 o [8; 9; 10];
               bucket := <[indexMarkerKey := Text "11"]>
                           (<[awsKeyBlock 0 := g0]>
                              (<[awsKeyBlock 4 := g4]> (<[awsKeyBlock 8 := g8]> ∅)));
               requests := [ReqPutObject indexMarkerKey (Text "11");
                            ReqUpload (awsKeyBlock 8) g8;
                            ReqUpload (awsKeyBlock 4) g4;
                            ReqUpload (awsKeyBlock 0) g0] |} in
  let v2 := {| fz := staged 4 5 o [4];
               bucket := <[indexMarkerKey := Text "5"]>
                           (<[awsKeyBlock 0 := g0]>
                              (<[awsKeyBlock 4 := JSONRecords [o 4]]> ∅));
               requests := [ReqPutObject indexMarkerKey (Text "5");
                            ReqUpload (awsKeyBlock 4) (JSONRecords [o 4]);
                            ReqBatchDelete (awsKeyBlock 4);
                            ReqDownload (awsKeyBlock 4)] ++ requests v1 |} in
  let v3 := {| fz := staged 4 5 o [4];
               bucket := bucket v2;
               requests := [ReqPutObject indexMarkerKey (Text "5");
                            ReqUpload (awsKeyBlock 4) (JSONRecords [o 4])]
                           ++ requests v2 |} in
  appendRange bs [0; 1; 2; 3; 4; 5; 6; 7; 8; 9; 10] (freshStore 4) = Returns None w1 ∧
  TruncateAncients noFaults 5 w1 = Returns None w2 ∧
  Sync noFaults w2 = Returns None w3 ∧
  Sync noFaults w1 = Returns None v1 ∧
  TruncateAncients noFaults 5 v1 = Returns None v2 ∧
  Sync noFaults v2 = Returns None v3 ∧
  (∀ u, u = w2 ∨ u = v2 →
     frozen (fz u) = Some 5 ∧
     servesBlobs u 4 (bs 4) ∧
     (∀ io kind, Ancient io kind 4 u =
                 (b ← RLPBytesForKind (o 4) kind; ret (Some b, None)) u) ∧
     (∀ io kind n, 5 ≤ n → Ancient io kind n u = Returns (None, None) u)) ∧
  (∀ u, u = w3 ∨ u = v3 →
     ∀ key l, bucket u !! key = Some (JSONRecords l) →
              String.ltb key (awsKeyBlock 4) = false → l = [o 4]).
Proof.
  intros Hd Hall g0 g4 g8 w1 w2 w3 v1 v2 v3.
  repeat (apply Forall_cons_1 in Hall as [[? ?] Hall]).
  split.
  { unfold appendRange.
    rewrite (appendBlobs_decoded 0 _ (o 0)), (appendBlobs_decoded 1 _ (o 1)),
      (appendBlobs_decoded 2 _ (o 2)), (appendBlobs_decoded 3 _ (o 3)),
      (appendBlobs_decoded 4 _ (o 4)), (appendBlobs_decoded 5 _ (o 5)),
      (appendBlobs_decoded 6 _ (o 6)), (appendBlobs_decoded 7 _ (o 7)),
      (appendBlobs_decoded 8 _ (o 8)), (appendBlobs_decoded 9 _ (o 9)),
      (appendBlobs_decoded 10 _ (o 10)) by done.
    by_eval. }
  split; [by_eval|]. split; [by_eval|]. split; [by_eval|].
  split.
  { rewrite TruncateAncients_unfold.
    step_same tt.
    step_same (fz v1).
    replace (truncateScan 5 0 (cacheS (fz v1)) (cache (fz v1)) None)
      with (∅ : gmap N AncientObjectS3, None : option nat) by by_eval.
    step_by ltac:(unfold modify_fz; reflexivity).
    unfold truncateRemote.
    step_same tt.
    step_same 11.
    step_same 1.
    step_by ltac:(apply (refillFromRemote_numbered noFaults 5 1
                           [o 4; o 5; o 6; o 7] [4; 5; 6; 7]);
                  [done | by_eval | by_eval | by_eval | repeat constructor; done]).
    by_eval. }
  split; [by_eval|].
  split.
  - intros u Hu.
    assert (frozen (fz u) = Some 5 ∧ cache (fz u) !! 4 = Some (o 4)) as [Hfr Hc].
    { destruct Hu as [-> | ->]; split; by_eval. }
    split; [done|]. split.
    { by apply (servesBlobs_cached u 4 5 (bs 4) (o 4)). }
    split.
    { intros io kind. by apply (Ancient_cached io kind 4 5). }
    intros io kind n Hn. apply (Ancient_frozen_guard io kind n 5); [done|].
    by apply N.leb_le.
  - intros u Hu key l Hkey Hge.
    assert (bucket u = bucket w3) as E by (destruct Hu as [-> | ->]; done).
    rewrite E in Hkey. subst w3. cbn [bucket] in Hkey.
    apply lookup_insert_Some in Hkey as [[_ [=]]|[_ Hkey]].
    apply lookup_insert_Some in Hkey as [[<- _]|[_ Hkey]].
    { vm_compute in Hge. discriminate. }
    apply lookup_insert_Some in Hkey as [[_ [= <-]]|[_ Hkey]]; [done|].
    by rewrite lookup_empty in Hkey.
Qed.

End TruncateBoundary.

(** The witness of C4: the blocks of the small codec, truncated before
    any upload and after the upload of the three groups. *)
Lemma Truncate_boundary_witness :
  let g0 := JSONRecords [Toy.block 0; Toy.block 1; Toy.block 2; Toy.block 3] in
  let g4 := JSONRecords [Toy.block 4; Toy.block 5; Toy.block 6; Toy.block 7] in
  let g8 := JSONRecords [Toy.block 8; Toy.block 9; Toy.block 10] in
  let v1 := {| fz := staged 4 11 Toy.block [8; 9; 10];
               bucket := <[indexMarkerKey := Text "11"]>
                           (<[awsKeyBlock 0 := g0]>
                              (<[awsKeyBlock 4 := g4]> (<[awsKeyBlock 8 := g8]> ∅)));
               requests := [ReqPutObject indexMarkerKey (Text "11");
                            ReqUpload (awsKeyBlock 8) g8;
                            ReqUpload (awsKeyBlock 4) g4;
                            ReqUpload (awsKeyBlock 0) g0] |} in
  TruncateAncients noFaults 5
    {| fz := staged 4 11 Toy.block [0; 1; 2; 3; 4; 5; 6; 7; 8; 9; 10];
       bucket := ∅; requests := [] |} =
  Returns None
    {| fz := staged 4 5 Toy.block [0; 1; 2; 3; 4];
       bucket := {[ indexMarkerKey := Text "5" ]};
       requests := [ReqPutObject indexMarkerKey (Text "5")] |} ∧
  TruncateAncients noFaults 5 v1 =
  Returns None
    {| fz := staged 4 5 Toy.block [4];
       bucket := <[indexMarkerKey := Text "5"]>
                   (<[awsKeyBlock 0 := g0]>
                      (<[awsKeyBlock 4 := JSONRecords [Toy.block 4]]> ∅));
       requests := [ReqPutObject indexMarkerKey (Text "5");
                    ReqUpload (awsKeyBlock 4) (JSONRecords [Toy.block 4]);
                    ReqBatchDelete (awsKeyBlock 4);
                    ReqDownload (awsKeyBlock 4)] ++ requests v1 |}.
Proof.
  intros g0 g4 g8 v1.
  destruct (Truncate_boundary Toy.blobsOf Toy.block) as (_ & H & _ & _ & H' & _).
  - apply (bool_decide_unpack _). by_eval.
  - repeat constructor; first [by_eval | by eexists].
  - split; [exact H | exact H'].
Defined.

(** The same truncation when the eleven records had been synced before:
    the group of record 5 is fetched, its records below 5 are kept and
    uploaded again, and the later group is deleted. *)
Lemma Truncate_boundary_after_sync :
  let out2 := TruncateAncients noFaults 5 Toy.elevenSynced in
  let out3 := Sync noFaults (world_of out2) in
  dom (bucket Toy.elevenSynced) =
    {[ indexMarkerKey; awsKeyBlock 0; awsKeyBlock 4; awsKeyBlock 8 ]} ∧
  returned out2 = Some None ∧
  frozen (fz (world_of out2)) = Some 5 ∧
  cacheS (fz (world_of out2)) = [4] ∧
  returned (Ancient noFaults "headers" 4 (world_of out2)) = Some (Some (Toy.blob 4), None) ∧
  returned (Ancient noFaults "headers" 5 (world_of out2)) = Some (None, None) ∧
  returned out3 = Some None ∧
  dom (bucket (world_of out3)) = {[ indexMarkerKey; awsKeyBlock 0; awsKeyBlock 4 ]} ∧
  bucket (world_of out3) !! awsKeyBlock 4 = Some (JSONRecords [Toy.block 4]) ∧
  bucket (world_of out3) !! indexMarkerKey = Some (Text "5").
Proof.
  intros out2 out3.
  split; [by_eval|]. split; [by_eval|]. split; [by_eval|]. split; [by_eval|].
  split; [by_eval|]. split; [by_eval|]. split; [by_eval|]. split; [by_eval|].
  split; by_eval.
Qed.

(** * Further properties of the store *)

(** ** [AppendAncient] *)

Section AppendFacts.

Context `{RC : RecordCodec} `{FS : FreezerSchema}.

Implicit Types (w : world) (f : freezerRemoteS3) (io : faults).

Lemma AppendAncient_inv number hash header body receipts td obj w r w' :
  NewAncientObjectS3 hash header body receipts td = inr obj →
  AppendAncient number hash header body receipts td w = Returns r w' →
  r = None ∧
  headAligned (fz w') ∧
  ∃ n, frozen (fz w) = Some n ∧
       w' = {| fz := {| frozen := Some (wrap64 (n + 1));
                        objectGroupSize := objectGroupSize (fz w);
                        retrieved := retrieved (fz w);
                        cache := <[number := obj]> (cache (fz w));
                        cacheS := cacheS (fz w) ++ [number] |};
               bucket := bucket w; requests := requests w |}.
Proof.
  intros Hdec. unfold AppendAncient. rewrite Hdec.
  unfold bind at 1. unfold modify_fz at 1.
  unfold bind at 1. unfold modify_fz at 1.
  unfold bind at 1.
  destruct (assertCacheBeginsAtMod _) as [[] w1|] eqn:E; [|done].
  apply assertCacheBeginsAtMod_inv in E as (-> & Hgs & n0 & l & E & Hmod).
  unfold addFrozen. unfold bind, get_fz, modify_fz, ret. cbn in *.
  destruct (frozen (fz w)) as [n|] eqn:Hfr; [|done].
  intros [= <- <-]. split; [done|]. split.
  - unfold headAligned. cbn. by rewrite E.
  - by exists n.
Qed.

(** [AppendAncient] returns an error only when a blob does not decode,
    and then it has changed nothing. *)
Theorem AppendAncient_error number hash header body receipts td w e w' :
  AppendAncient number hash header body receipts td w = Returns (Some e) w' →
  NewAncientObjectS3 hash header body receipts td = inl e ∧ w' = w.
Proof.
  destruct (NewAncientObjectS3 hash header body receipts td) as [e'|obj] eqn:Hdec.
  - unfold AppendAncient. rewrite Hdec. by intros [= <- <-].
  - intros H. by apply (AppendAncient_inv _ _ _ _ _ _ obj) in H as [[=] _].
Qed.

(** A successful [AppendAncient] stages the decoded record under its
    number at the end of the sequence of cached numbers, advances the frozen
    count by one (modulo 2^64), and neither touches the bucket nor asks
    anything of it. *)
Theorem AppendAncient_stages number hash header body receipts td w w' :
  AppendAncient number hash header body receipts td w = Returns None w' →
  ∃ obj n,
    NewAncientObjectS3 hash header body receipts td = inr obj ∧
    frozen (fz w) = Some n ∧
    frozen (fz w') = Some (wrap64 (n + 1)) ∧
    cacheS (fz w') = cacheS (fz w) ++ [number] ∧
    cache (fz w') = <[number := obj]> (cache (fz w)) ∧
    bucket w' = bucket w ∧
    requests w' = requests w.
Proof.
  destruct (NewAncientObjectS3 hash header body receipts td) as [e'|obj] eqn:Hdec.
  - unfold AppendAncient. by rewrite Hdec.
  - intros (_ & _ & n & Hfr & ->)%(AppendAncient_inv _ _ _ _ _ _ obj); [|done].
    by exists obj, n.
Qed.

Lemma Ancient_of_appended n hash header body receipts td obj w w' io kind :
  frozen (fz w) = Some n →
  n < maxUint64 →
  NewAncientObjectS3 hash header body receipts td = inr obj →
  AppendAncient n hash header body receipts td w = Returns None w' →
  Ancient io kind n w' = (b ← RLPBytesForKind obj kind; ret (Some b, None)) w'.
Proof.
  intros Hfr Hn Hdec (_ & _ & n' & Hfr' & ->)%(AppendAncient_inv _ _ _ _ _ _ obj);
    [|done].
  assert (n' = n) as -> by congruence.
  unfold Ancient, loadFrozen.
  unfold bind at 1 2. unfold get_fz at 1. cbn [fz frozen]. unfold ret at 1.
  assert (wrap64 (n + 1) = n + 1) as ->.
  { unfold wrap64, maxUint64 in *. apply N.mod_small. lia. }
  destruct (N.leb_spec (n + 1) n); [lia|].
  unfold bind at 1. unfold get_fz at 1. cbn [fz cache].
  by rewrite lookup_insert_eq.
Qed.

(** Read your writes: after [AppendAncient] of the number the frozen count
    stands at (below 2^64 - 1) has returned nil, [Ancient] of that number
    answers from the write cache with the encoding of the record just
    decoded, for every kind, whatever the bucket does and without asking
    it. *)
Theorem Ancient_after_AppendAncient n hash header body receipts td obj w w' :
  frozen (fz w) = Some n →
  n < maxUint64 →
  NewAncientObjectS3 hash header body receipts td = inr obj →
  AppendAncient n hash header body receipts td w = Returns None w' →
  ∀ io kind,
    Ancient io kind n w' = (b ← RLPBytesForKind obj kind; ret (Some b, None)) w'.
Proof.
  intros Hfr Hn Hdec H io kind.
  by apply (Ancient_of_appended n hash header body receipts td obj w).
Qed.

(** When the sequence of cached numbers is empty and the number is not a
    multiple of the group size, [AppendAncient] panics after it has staged
    the record and before it advances the frozen count. *)
Theorem AppendAncient_unaligned_first_panics number hash header body receipts td obj w :
  cacheS (fz w) = [] →
  objectGroupSize (fz w) ≠ 0 →
  number mod objectGroupSize (fz w) ≠ 0 →
  NewAncientObjectS3 hash header body receipts td = inr obj →
  AppendAncient number hash header body receipts td w =
  Panics (PanicCacheNotAtMod number (number mod objectGroupSize (fz w)))
    {| fz := set_cacheS [number] (set_cache (<[number := obj]> (cache (fz w))) (fz w));
       bucket := bucket w; requests := requests w |}.
Proof.
  intros HS Hgs Hmod Hdec. unfold AppendAncient. rewrite Hdec.
  unfold assertCacheBeginsAtMod, umod. run. rewrite HS. simpl.
  destruct (N.eqb_spec (objectGroupSize (fz w)) 0) as [|_]; [done|]. run.
  by destruct (N.eqb_spec (number mod objectGroupSize (fz w)) 0).
Qed.

End AppendFacts.

(** ** The alignment of the write cache *)

Section Alignment.

Context `{RC : RecordCodec} `{FS : FreezerSchema}.

Implicit Types (w : world) (f : freezerRemoteS3) (io : faults).

Lemma headAligned_nil f : cacheS f = [] → headAligned f.
Proof. unfold headAligned. by intros ->. Qed.

Lemma pushCache_headAligned io w w' :
  pushCache io w = Returns None w' → headAligned (fz w').
Proof.
  destruct (decide (cacheS (fz w) = [])) as [HS|HS].
  { rewrite pushCache_nil by done. intros [= <-]. by apply headAligned_nil. }
  unfold pushCache. unfold bind at 1. unfold get_fz at 1.
  rewrite bool_decide_eq_false_2 by (by destruct (cacheS (fz w))).
  unfold bind at 1. destruct (assertCacheBeginsAtMod w) as [[] w1|]; [|done].
  unfold bind at 1. destruct (sealLoop _ _ w1) as [st w2|]; [|done].
  unfold bind at 1. destruct (UploadWithIterator _ _ w2) as [[e|] w3|]; [done| |done].
  unfold bind at 1. unfold modify_fz at 1.
  unfold bind at 1. unfold modify_fz at 1.
  unfold bind at 1. destruct (assertCacheBeginsAtMod _) as [[] w4|] eqn:E; [|done].
  apply assertCacheBeginsAtMod_inv in E as (-> & Hgs & n0 & l & E & Hmod).
  unfold bind, modify_fz, ret. intros [= <-]. unfold headAligned. cbn in *.
  by rewrite E.
Qed.

Lemma Sync_headAligned io w w' :
  headAligned (fz w) → Sync io w = Returns None w' → headAligned (fz w').
Proof.
  intros Hw [[_ ->]|(_ & wp & n & HP & _ & ->)]%Sync_inv; [done|].
  by apply pushCache_headAligned in HP.
Qed.

(** The loop of [TruncateAncients] that keeps the fetched records below
    the target. *)
Lemma rebuild_loop items target : ∀ w w',
  forM_ target (λ t,
    n ← headerNumber t;
    if n <? items then
      modify_fz (λ f, set_cache (<[n := t]> (cache f)) (set_cacheS (cacheS f ++ [n]) f))
    else ret ()) w = Returns () w' →
  cacheCovers (fz w) →
  cacheCovers (fz w') ∧ objectGroupSize (fz w') = objectGroupSize (fz w) ∧
  frozen (fz w') = frozen (fz w) ∧ retrieved (fz w') = retrieved (fz w) ∧
  bucket w' = bucket w ∧ requests w' = requests w.
Proof.
  induction target as [|t target IH]; intros w w'.
  - by intros [= <-].
  - simpl. unfold bind at 1. unfold headerNumber at 1.
    destruct (Header t) as [h|]; [|done]. unfold ret at 1. unfold bind at 1.
    destruct (header_Number h <? items).
    + unfold modify_fz at 1. intros H Hc. apply IH in H as (? & ? & ? & ? & ? & ?).
      * repeat split; assumption.
      * unfold cacheCovers in *. cbn. apply Forall_app. split.
        -- revert Hc. apply Forall_impl. intros k [v Hk]. cbn.
           destruct (decide (header_Number h = k)) as [->|?].
           ++ rewrite lookup_insert_eq. by eexists.
           ++ rewrite lookup_insert_ne by done. by eexists.
        -- apply Forall_singleton. rewrite lookup_insert_eq. by eexists.
    + unfold ret at 1. apply IH.
Qed.

Lemma cacheCovers_empty f :
  cacheCovers f → size (cache f) = 0%nat → cacheS f = [].
Proof.
  unfold cacheCovers. intros Hc He%map_size_empty_inv.
  destruct (cacheS f) as [|n l]; [done|].
  inversion Hc as [|? ? [v Hv]]. by rewrite He, lookup_empty in Hv.
Qed.

End Alignment.

(** ** [TruncateAncients], piece by piece *)

Section TruncateFacts.

Context `{RC : RecordCodec} `{FS : FreezerSchema}.

Implicit Types (w : world) (f : freezerRemoteS3) (io : faults).

(** What [TruncateAncients] does once its first check has passed. *)
Lemma TruncateAncients_scanned io items w r w' :
  TruncateAncients io items w = Returns r w' →
  headAligned (fz w) ∧ cacheS (fz w) ≠ [] ∧
  let c := (truncateScan items 0 (cacheS (fz w)) (cache (fz w)) None).1 in
  let w0 := {| fz := set_cache c (fz w); bucket := bucket w; requests := requests w |} in
  match (truncateScan items 0 (cacheS (fz w)) (cache (fz w)) None).2 with
  | Some i => truncateCached io items i w0 = Returns r w'
  | None => truncateRemote io items (objectGroupSize (fz w)) w0 = Returns r w'
  end.
Proof.
  rewrite TruncateAncients_unfold. unfold bind at 1.
  destruct (assertCacheBeginsAtMod w) as [[] w1|] eqn:E; [|done].
  apply assertCacheBeginsAtMod_inv in E as (-> & Hgs & n0 & l & E & Hmod).
  unfold bind at 1. unfold get_fz at 1.
  destruct (truncateScan items 0 (cacheS (fz w)) (cache (fz w)) None) as [c at_] eqn:ES.
  unfold bind at 1. unfold modify_fz at 1. intros H.
  split; [unfold headAligned; by rewrite E|]. split; [by rewrite E|].
  simpl. by destruct at_.
Qed.

Lemma truncateCached_inv io items i w r w' :
  truncateCached io items i w = Returns r w' →
  cacheS (fz w') = take i (cacheS (fz w)) ∧
  cache (fz w') = cache (fz w) ∧
  objectGroupSize (fz w') = objectGroupSize (fz w) ∧
  retrieved (fz w') = retrieved (fz w) ∧
  requests w' = ReqPutObject indexMarkerKey (Text (FormatUint items)) :: requests w ∧
  match r with
  | None => frozen (fz w') = Some items ∧
            bucket w' = <[indexMarkerKey := Text (FormatUint items)]> (bucket w)
  | Some e => put_fault io indexMarkerKey = Some e ∧
              frozen (fz w') = frozen (fz w) ∧ bucket w' = bucket w
  end.
Proof.
  unfold truncateCached, setIndexMarker, PutObject, storeFrozen. run.
  destruct (put_fault io indexMarkerKey) as [e|]; run.
  - by intros [= <- <-].
  - destruct (frozen (fz w)); [|done]. by intros [= <- <-].
Qed.

Lemma objectKeyForN_inv n w key w' :
  objectKeyForN n w = Returns key w' →
  w' = w ∧ objectGroupSize (fz w) ≠ 0 ∧ key = groupKey (objectGroupSize (fz w)) n.
Proof.
  unfold objectKeyForN, udiv. run.
  destruct (N.eqb_spec (objectGroupSize (fz w)) 0); [done|]. run.
  by intros [= <- <-].
Qed.

Lemma Download_inv io key w r w' :
  Download io key w = Returns r w' →
  w' = {| fz := fz w; bucket := bucket w; requests := ReqDownload key :: requests w |} ∧
  r = match get_fault io key with
      | Some e => inl e
      | None => match bucket w !! key with
                | Some body => inr body
                | None => inl (AwsError ErrCodeNoSuchKey)
                end
      end.
Proof.
  unfold Download. run. destruct (get_fault io key); run.
  - by intros [= <- <-].
  - destruct (bucket w !! key); by intros [= <- <-].
Qed.

Lemma rebuild_loop_below items target : ∀ w w',
  forM_ target (λ t,
    n ← headerNumber t;
    if n <? items then
      modify_fz (λ f, set_cache (<[n := t]> (cache f)) (set_cacheS (cacheS f ++ [n]) f))
    else ret ()) w = Returns () w' →
  Forall (λ n, n < items) (cacheS (fz w)) →
  Forall (λ n, n < items) (cacheS (fz w')).
Proof.
  induction target as [|t target IH]; intros w w'.
  - by intros [= <-].
  - simpl. unfold bind at 1. unfold headerNumber at 1.
    destruct (Header t) as [h|]; [|done]. unfold ret at 1. unfold bind at 1.
    destruct (N.ltb_spec (header_Number h) items).
    + unfold modify_fz at 1. intros Hrun Hc. apply IH in Hrun; [done|]. cbn.
      apply Forall_app. split; [done|]. by apply Forall_singleton.
    + unfold ret at 1. apply IH.
Qed.

Lemma refillFromRemote_inv io items md w w' :
  refillFromRemote io items md w = Returns None w' →
  cacheCovers (fz w') ∧
  objectGroupSize (fz w') = objectGroupSize (fz w) ∧
  frozen (fz w') = frozen (fz w) ∧
  retrieved (fz w') = retrieved (fz w) ∧
  bucket w' = bucket w ∧
  Forall (λ n, n < items) (cacheS (fz w')).
Proof.
  unfold refillFromRemote. destruct (negb (md =? 0)).
  - unfold bind at 1.
    destruct (objectKeyForN items w) as [key w1|] eqn:E1; [|done].
    apply objectKeyForN_inv in E1 as (-> & _ & _).
    unfold bind at 1.
    destruct (Download io key w) as [r w2|] eqn:E2; [|done].
    apply Download_inv in E2 as (-> & _).
    destruct r as [e|buf]; [by destruct (hasAwsCode ErrCodeNoSuchKey e)|].
    destruct (json_Unmarshal buf) as [e|target]; [done|].
    unfold bind at 1. unfold modify_fz at 1. unfold bind at 1.
    match goal with |- context [forM_ target ?b ?w0] =>
      destruct (forM_ target b w0) as [[] w3|] eqn:E3; [|done] end.
    pose proof (rebuild_loop_below _ _ _ _ E3) as Hbelow.
    apply rebuild_loop in E3 as (Hc & Hgs & Hfr & Hret & Hb & _);
      [|by apply Forall_nil].
    unfold bind, modify_fz, ret. intros [= <-]. cbn in *.
    split; [|split; [done|split; [done|split; [done|split; [done|]]]]].
    + unfold cacheCovers in *. cbn. by rewrite merge_sort_Permutation.
    + rewrite merge_sort_Permutation. apply Hbelow. by apply Forall_nil.
  - unfold bind, modify_fz, ret. intros [= <-]. cbn.
    split; [by apply Forall_nil|]. repeat split; by try apply Forall_nil.
Qed.

Lemma truncateRemote_headAligned io items gs w w' :
  truncateRemote io items gs w = Returns None w' → headAligned (fz w').
Proof.
  unfold truncateRemote. unfold bind at 1.
  destruct (assertCacheBeginsAtMod w) as [[] w1|] eqn:E; [|done].
  apply assertCacheBeginsAtMod_inv in E as (-> & _).
  unfold loadFrozen. unfold bind at 1 2. unfold get_fz at 1.
  destruct (frozen (fz w)) as [n|]; [|done]. unfold ret at 1.
  unfold bind at 1. unfold umod. destruct (gs =? 0); [done|]. unfold ret at 1.
  unfold bind at 1.
  destruct (refillFromRemote io items (items mod gs) w) as [[e|] w2|] eqn:E2;
    [done| |done].
  apply refillFromRemote_inv in E2 as (Hc & _).
  unfold bind at 1.
  destruct (objectKeyForN items w2) as [key w3|] eqn:E3; [|done].
  apply objectKeyForN_inv in E3 as (-> & _).
  unfold bind at 1. unfold BatchDelete. unfold bind at 1. unfold log_request at 1.
  destruct (delete_fault io); [done|].
  unfold bind at 1. unfold modify_bucket at 1. unfold ret at 1.
  unfold bind at 1. unfold get_fz at 1. cbn [fz]. unfold bind at 1.
  match goal with |- context [(if ?b then pushCache io else ret None) ?w0] =>
    destruct ((if b then pushCache io else ret None) w0) as [[e|] w4|] eqn:E4;
      [done| |done]; assert (headAligned (fz w4)) as Hal end.
  { case_bool_decide as Hsz.
    - by apply pushCache_headAligned in E4.
    - injection E4 as <-. cbn. apply headAligned_nil, cacheCovers_empty; [done|lia]. }
  unfold bind at 1.
  destruct (setIndexMarker io items w4) as [[e|] w5|] eqn:E5; [done| |done].
  apply setIndexMarker_inv in E5 as ->.
  unfold storeFrozen. unfold bind, get_fz, modify_fz, ret. cbn.
  destruct (frozen (fz w4)); [|done]. by intros [= <-].
Qed.

(** Whenever [TruncateAncients] returns nil, the sequence of cached
    numbers it leaves is empty or begins at a multiple of the group
    size. *)
Lemma TruncateAncients_headAligned io items w w' :
  TruncateAncients io items w = Returns None w' → headAligned (fz w').
Proof.
  intros (Hal & HS & H)%TruncateAncients_scanned. cbn zeta in H.
  destruct (truncateScan items 0 (cacheS (fz w)) (cache (fz w)) None) as [c [i|]];
    cbn [fst snd] in H.
  - apply truncateCached_inv in H as (HS' & _ & Hgs & _). cbn in *.
    unfold headAligned in *. rewrite HS', Hgs.
    destruct (cacheS (fz w)) as [|n0 l]; [done|]. by destruct i.
  - by apply truncateRemote_headAligned in H.
Qed.

End TruncateFacts.

Section Invariant.

Context `{RC : RecordCodec} `{FS : FreezerSchema}.

Implicit Types (w : world) (f : freezerRemoteS3) (io : faults).

Lemma runOp_headAligned op w w' :
  headAligned (fz w) → runOp op w = Returns None w' → headAligned (fz w').
Proof.
  intros Hw. destruct op as [number b|io|io items]; simpl.
  - unfold appendBlobs. intros H.
    destruct (NewAncientObjectS3 (hashB b) (headerB b) (bodyB b) (receiptsB b) (tdB b))
      as [e|obj] eqn:Hdec.
    + unfold AppendAncient in H. by rewrite Hdec in H.
    + by destruct (AppendAncient_inv _ _ _ _ _ _ obj _ _ _ Hdec H) as (_ & ? & _).
  - by apply Sync_headAligned.
  - apply TruncateAncients_headAligned.
Qed.

(** The alignment of the write cache is an invariant of the mutations:
    from a store whose sequence of cached numbers is empty or begins at a
    multiple of the group size, every sequence of [AppendAncient], [Sync]
    and [TruncateAncients] calls that all return nil leaves such a store. *)
Theorem runOps_headAligned ops : ∀ w w',
  headAligned (fz w) → runOps ops w = Returns None w' → headAligned (fz w').
Proof.
  induction ops as [|op ops IH]; intros w w' Hw; simpl.
  - by intros [= <-].
  - unfold bind at 1. destruct (runOp op w) as [[e|] w1|] eqn:E; [done| |done].
    apply IH. by apply (runOp_headAligned op w).
Qed.

End Invariant.

(** ** The marker and the keys *)

Section KeyFacts.

Lemma digit_of_pretty_N_char d : d < 10 → digit_of (pretty_N_char d) = Some d.
Proof.
  intros Hd.
  assert (d = 0 ∨ d = 1 ∨ d = 2 ∨ d = 3 ∨ d = 4 ∨ d = 5 ∨ d = 6 ∨ d = 7 ∨ d = 8 ∨ d = 9)
    as H by lia.
  repeat (destruct H as [->|H]; [done|]). by subst.
Qed.

Lemma ParseUint_loop_pretty_N_go x : ∀ s,
  x ≤ maxUint64 →
  ParseUint_loop (pretty_N_go x s) 0 = ParseUint_loop s x.
Proof.
  induction (N.lt_wf_0 x) as [x _ IH]. intros s Hx.
  destruct (decide (x = 0)) as [->|Hne]; [done|].
  rewrite pretty_N_go_step by lia.
  assert (x `div` 10 < x) as Hlt by (apply N.div_lt; lia).
  rewrite IH by (unfold maxUint64 in *; first [done | lia]).
  cbn [ParseUint_loop].
  rewrite digit_of_pretty_N_char by (by apply N.mod_lt).
  assert (x `div` 10 ≤ maxUint64 `div` 10) as Hq by (by apply N.Div0.div_le_mono).
  destruct (N.leb_spec (maxUint64 `div` 10 + 1) (x `div` 10)); [lia|].
  assert (x `div` 10 * 10 + x `mod` 10 = x) as ->.
  { rewrite (N.div_mod x 10) at 3 by done. lia. }
  by destruct (N.ltb_spec maxUint64 x); [lia|].
Qed.

(** The marker round trip of [setIndexMarker] and [Ancients]: the decimal
    text written for a count is parsed back to that count, without error,
    for every 64-bit count. *)
Lemma ParseUint_FormatUint n :
  n ≤ maxUint64 → ParseUint (FormatUint n) = (n, None).
Proof.
  intros Hn. unfold FormatUint, pretty, pretty_N.
  destruct (decide (n = 0)) as [->|Hne]; [done|].
  pose proof (ParseUint_loop_pretty_N_go n "" Hn) as H. cbn [ParseUint_loop] in H.
  unfold ParseUint. destruct (pretty_N_go n "") eqn:E; [|done].
  cbn in H. congruence.
Qed.

Lemma ParseUint_loop_zeros k s :
  ParseUint_loop (String.concat "" (replicate k "0") +:+ s) 0 = ParseUint_loop s 0.
Proof.
  induction k as [|k IH]; [done|].
  destruct k as [|k]; [done|].
  cbn [replicate String.concat] in *. by cbn.
Qed.

Lemma ParseUint_loop_zeroPad9 n :
  n ≤ maxUint64 → ParseUint_loop (zeroPad9 (FormatUint n)) 0 = (n, None).
Proof.
  intros Hn. unfold zeroPad9. rewrite ParseUint_loop_zeros.
  pose proof (ParseUint_FormatUint n Hn) as H. unfold ParseUint in H.
  destruct (FormatUint n) eqn:E; [|done]. unfold FormatUint, pretty, pretty_N in E.
  destruct (decide (n = 0)); [done|].
  pose proof (ParseUint_loop_pretty_N_go n "" Hn) as H'. rewrite E in H'. cbn in H'.
  congruence.
Qed.

Lemma string_length_app (s t : string) :
  String.length (s +:+ t) = (String.length s + String.length t)%nat.
Proof. induction s as [|c s IH]; simpl; [done|]. by f_equal. Qed.

Lemma string_app_inv_tail (s1 s2 t : string) : s1 +:+ t = s2 +:+ t → s1 = s2.
Proof.
  revert s2. induction s1 as [|c s1 IH]; intros [|c' s2]; simpl.
  all: rewrite ?string_length_app.
  - done.
  - intros H. apply (f_equal String.length) in H. simpl in H.
    rewrite !string_length_app in H. simpl in H. lia.
  - intros H. apply (f_equal String.length) in H. simpl in H.
    rewrite !string_length_app in H. simpl in H. lia.
  - intros [= -> H]. f_equal. by apply IH.
Qed.

Lemma awsKeyBlock_digits a b :
  a ≤ maxUint64 → b ≤ maxUint64 → awsKeyBlock a = awsKeyBlock b → a = b.
Proof.
  intros Ha Hb. unfold awsKeyBlock. cbn. intros [= H].
  change (zeroPad9 (FormatUint a) +:+ ".json" = zeroPad9 (FormatUint b) +:+ ".json") in H.
  apply string_app_inv_tail in H.
  pose proof (ParseUint_loop_zeroPad9 a Ha) as H1.
  pose proof (ParseUint_loop_zeroPad9 b Hb) as H2.
  rewrite H in H1. congruence.
Qed.

(** Different numbers never share an object key: [awsKeyBlock] is
    injective on 64-bit numbers. *)
Theorem awsKeyBlock_inj a b :
  a ≤ maxUint64 → b ≤ maxUint64 → awsKeyBlock a = awsKeyBlock b → a = b.
Proof. apply awsKeyBlock_digits. Qed.

(** Two 64-bit numbers have the same group key exactly when they lie in
    the same group of [gs] consecutive numbers. *)
Theorem groupKey_same_group gs n m :
  gs ≠ 0 → n ≤ maxUint64 → m ≤ maxUint64 →
  groupKey gs n = groupKey gs m ↔ n `div` gs = m `div` gs.
Proof.
  intros Hgs Hn Hm. unfold groupKey. split; [|by intros ->].
  intros H. apply awsKeyBlock_digits in H.
  - by apply N.mul_cancel_r in H.
  - pose proof (N.Div0.mul_div_le n gs). lia.
  - pose proof (N.Div0.mul_div_le m gs). lia.
Qed.

End KeyFacts.

(** ** [Sync] and the marker *)

Section SyncFacts.

Context `{RC : RecordCodec} `{FS : FreezerSchema}.

Implicit Types (w : world) (f : freezerRemoteS3) (io : faults) (st : sealing).

Lemma UploadObjects_frame io ups : ∀ failed w r w',
  UploadObjects io ups failed w = Returns r w' →
  fz w' = fz w ∧
  ∀ key, Forall (λ kv, kv.1 ≠ key) ups → bucket w' !! key = bucket w !! key.
Proof.
  induction ups as [|[k body] ups IH]; intros failed w r w'.
  - by intros [= _ <-].
  - simpl. unfold bind at 1. unfold log_request at 1.
    destruct (put_fault io k).
    + intros [H1 H2]%IH. split; [done|]. intros key Hk.
      inversion_clear Hk. by rewrite H2.
    + unfold bind at 1. unfold modify_bucket at 1.
      intros [H1 H2]%IH. split; [done|]. intros key Hk.
      inversion_clear Hk as [|? ? Hne Hrest]. rewrite H2 by done. cbn in *.
      by rewrite lookup_insert_ne.
Qed.

Lemma sealStepPure_keys gs c n lst st :
  Forall (λ kv, kv.1 ≠ indexMarkerKey) (uploads st) →
  Forall (λ kv, kv.1 ≠ indexMarkerKey) (uploads (sealStepPure gs c n lst st)).
Proof.
  intros H. unfold sealStepPure.
  destruct (endsGroup gs n); simpl.
  - apply Forall_app. split; [done|]. apply Forall_singleton.
    apply awsKeyBlock_not_marker.
  - destruct lst; simpl; [|done]. apply Forall_app. split; [done|].
    apply Forall_singleton. apply awsKeyBlock_not_marker.
Qed.

Lemma sealPure_keys gs c l : ∀ st,
  Forall (λ kv, kv.1 ≠ indexMarkerKey) (uploads st) →
  Forall (λ kv, kv.1 ≠ indexMarkerKey) (uploads (sealPure gs c l st)).
Proof.
  induction l as [|n l IH]; intros st H; [done|].
  simpl. by apply IH, sealStepPure_keys.
Qed.

(** What [pushCache] leaves alone, whatever it returns: the frozen count,
    the group size and the marker object; and when it returns an error, the
    whole store. *)
Lemma pushCache_frame io w r w' :
  pushCache io w = Returns r w' →
  frozen (fz w') = frozen (fz w) ∧
  objectGroupSize (fz w') = objectGroupSize (fz w) ∧
  bucket w' !! indexMarkerKey = bucket w !! indexMarkerKey ∧
  (is_Some r → fz w' = fz w).
Proof.
  unfold pushCache. unfold bind at 1. unfold get_fz at 1.
  case_bool_decide as HS.
  { by intros [= <- <-]. }
  unfold bind at 1.
  destruct (assertCacheBeginsAtMod w) as [[] w1|] eqn:E1; [|done].
  apply assertCacheBeginsAtMod_inv in E1 as (-> & Hgs & _).
  unfold bind at 1. rewrite sealLoop_sealPure by done.
  unfold bind at 1. unfold UploadWithIterator at 1. unfold bind at 1.
  destruct (UploadObjects _ _ _ w) as [failed w3|] eqn:E3; [|done].
  apply UploadObjects_frame in E3 as [Hfz Hb].
  specialize (Hb indexMarkerKey (sealPure_keys _ _ _ noSealing (Forall_nil _))).
  destruct failed.
  - unfold ret. intros [= <- <-]. by rewrite Hfz.
  - unfold ret at 1. unfold bind at 1. unfold modify_fz at 1.
    unfold bind at 1. unfold modify_fz at 1. unfold bind at 1.
    destruct (assertCacheBeginsAtMod _) as [[] w4|] eqn:E4; [|done].
    apply assertCacheBeginsAtMod_inv in E4 as (-> & _).
    unfold bind, modify_fz, ret. intros [= <- <-]. cbn. rewrite Hfz.
    by repeat split.
Qed.

(** [Sync] never changes the frozen count or the group size, and when it
    returns an error the marker object is what it was: the durable count
    does not move on a failed [Sync]. *)
Theorem Sync_frame io w r w' :
  Sync io w = Returns r w' →
  frozen (fz w') = frozen (fz w) ∧
  objectGroupSize (fz w') = objectGroupSize (fz w) ∧
  (is_Some r → bucket w' !! indexMarkerKey = bucket w !! indexMarkerKey).
Proof.
  unfold Sync. unfold bind at 1. unfold get_fz at 1.
  case_bool_decide as Hsz; [by intros [= <- <-]|].
  unfold bind at 1.
  destruct (pushCache io w) as [[e|] wp|] eqn:EP; [| |done].
  - apply pushCache_frame in EP as (? & ? & ? & _). by intros [= <- <-].
  - apply pushCache_frame in EP as (Hfr & Hgs & Hm & _).
    unfold loadFrozen. unfold bind at 1 2. unfold get_fz at 1.
    destruct (frozen (fz wp)) as [n|] eqn:Hn; [|done]. unfold ret at 1.
    rewrite <- Hn in Hfr.
    unfold setIndexMarker, PutObject. run.
    destruct (put_fault io indexMarkerKey); run; intros [= <- <-]; cbn.
    + done.
    + by repeat split.
Qed.

(** When [Sync] returns nil having found records in the write cache, the
    marker object holds the decimal text of the frozen count. *)
Theorem Sync_writes_marker io w w' :
  size (cache (fz w)) ≠ 0%nat →
  Sync io w = Returns None w' →
  ∃ n, frozen (fz w') = Some n ∧
       bucket w' !! indexMarkerKey = Some (Text (FormatUint n)).
Proof.
  intros Hsz [[? _]|(_ & wp & n & _ & Hfr & ->)]%Sync_inv; [done|].
  exists n. cbn. split; [done|]. by rewrite lookup_insert_eq.
Qed.

(** The count that [setIndexMarker] writes is the count that [Ancients]
    reads when asked before the in-memory counter exists, as the
    constructor does: the marker round-trips every 64-bit count. *)
Theorem Ancients_reads_marker io io' n w w1 f r :
  n ≤ maxUint64 →
  setIndexMarker io n w = Returns None w1 →
  frozen f = None →
  get_fault io' indexMarkerKey = None →
  Ancients io' {| fz := f; bucket := bucket w1; requests := r |} =
  Returns (n, None)
    {| fz := f; bucket := bucket w1; requests := ReqGetObject indexMarkerKey :: r |}.
Proof.
  intros Hn ->%setIndexMarker_inv Hf Hio.
  unfold Ancients, GetObject. run. rewrite Hf. run. rewrite Hio. run.
  rewrite lookup_insert_eq. by rewrite ParseUint_FormatUint.
Qed.

End SyncFacts.

(** ** What a push uploads *)

Section PushFacts.

Context `{RC : RecordCodec} `{FS : FreezerSchema}.

Implicit Types (w : world) (f : freezerRemoteS3) (io : faults) (st : sealing)
  (c : gmap N AncientObjectS3).

(** The records sealed so far, followed by the records of the open set. *)
Lemma sealStepPure_flat gs c n lst st :
  concat (map (recordsOf ∘ snd) (uploads (sealStepPure gs c n lst st)))
    ++ set (sealStepPure gs c n lst st) =
  (concat (map (recordsOf ∘ snd) (uploads st)) ++ set st) ++ [cached c n].
Proof.
  unfold sealStepPure.
  destruct (endsGroup gs n); [|destruct lst]; simpl;
    rewrite ?map_app, ?concat_app; simpl; by rewrite ?app_nil_r, <- ?app_assoc.
Qed.

Lemma sealPure_flat gs c l : ∀ st,
  concat (map (recordsOf ∘ snd) (uploads (sealPure gs c l st))) ++ set (sealPure gs c l st) =
  (concat (map (recordsOf ∘ snd) (uploads st)) ++ set st) ++ map (cached c) l.
Proof.
  induction l as [|n l IH]; intros st; simpl; [by rewrite app_nil_r|].
  rewrite IH, sealStepPure_flat. by rewrite <- !app_assoc.
Qed.

Lemma sealPure_set_nil gs c l : ∀ st, l ≠ [] → set (sealPure gs c l st) = [].
Proof.
  induction l as [|n l IH]; intros st Hl; [done|].
  simpl. destruct l as [|n' l].
  - simpl. unfold sealStepPure. by destruct (endsGroup gs n).
  - by apply IH.
Qed.

Lemma sealStepPure_keys_in gs c n lst st (P : N → Prop) :
  P n →
  Forall (λ kv, ∃ m, P m ∧ kv.1 = groupKey gs m) (uploads st) →
  Forall (λ kv, ∃ m, P m ∧ kv.1 = groupKey gs m)
    (uploads (sealStepPure gs c n lst st)).
Proof.
  intros Hn H. unfold sealStepPure.
  destruct (endsGroup gs n); [|destruct lst]; simpl; try done;
    (apply Forall_app; split; [done|]; apply Forall_singleton; by exists n).
Qed.

Lemma sealPure_keys_in gs c l (P : N → Prop) : ∀ st,
  Forall P l →
  Forall (λ kv, ∃ m, P m ∧ kv.1 = groupKey gs m) (uploads st) →
  Forall (λ kv, ∃ m, P m ∧ kv.1 = groupKey gs m) (uploads (sealPure gs c l st)).
Proof.
  induction l as [|n l IH]; intros st Hl H; [done|].
  inversion_clear Hl. simpl. apply IH; [done|]. by apply sealStepPure_keys_in.
Qed.

(** A push that returns nil has uploaded every cached record exactly once,
    in the order of the cached numbers: the bodies of the objects it
    uploaded, one after the other, are the records of the cached numbers; and
    each object went under the group key of one of the cached numbers. *)
Theorem pushCache_uploads_every_record io w w' :
  cacheS (fz w) ≠ [] →
  pushCache io w = Returns None w' →
  ∃ ups,
    requests w' = rev (map (λ kv, ReqUpload kv.1 kv.2) ups) ++ requests w ∧
    bucket w' = putAll ups (bucket w) ∧
    concat (map (recordsOf ∘ snd) ups) = map (cached (cache (fz w))) (cacheS (fz w)) ∧
    Forall (λ kv, ∃ m, m ∈ cacheS (fz w) ∧
                       kv.1 = groupKey (objectGroupSize (fz w)) m) ups.
Proof.
  intros HS (Hgs & _ & ->)%pushCache_inv; [|done].
  eexists. split; [reflexivity|]. split; [reflexivity|]. split.
  - pose proof (sealPure_flat (objectGroupSize (fz w)) (cache (fz w))
                  (cacheS (fz w)) noSealing) as H.
    rewrite sealPure_set_nil in H by done. simpl in H.
    by rewrite app_nil_r in H.
  - apply sealPure_keys_in; [|by apply Forall_nil]. rewrite Forall_forall.
    intros x Hx. by apply list_elem_of_In.
Qed.

End PushFacts.

(** ** [TruncateAncients] on its two paths *)

Section TruncatePaths.

Context `{RC : RecordCodec} `{FS : FreezerSchema}.

Implicit Types (w : world) (f : freezerRemoteS3) (io : faults)
  (c : gmap N AncientObjectS3) (l : list N).

Lemma truncateScan_cache items l : ∀ i c a n,
  (truncateScan items i l c a).1 !! n =
  if bool_decide (items ≤ n ∧ n ∈ l) then None else c !! n.
Proof.
  induction l as [|v l IH]; intros i c a n; simpl.
  - rewrite bool_decide_eq_false_2; [done|]. intros [_ ?%elem_of_nil]. done.
  - rewrite IH. destruct (N.leb_spec items v) as [Hle|Hlt].
    + case_bool_decide as H1; case_bool_decide as H2; try done.
      * destruct H2. split; [tauto|]. right. tauto.
      * destruct (decide (n = v)) as [->|Hne]; [by rewrite lookup_delete_eq|].
        destruct H2 as [? [?|?]%elem_of_cons]; [done|]. destruct H1. by split.
      * destruct (decide (n = v)) as [->|Hne].
        -- destruct H2. split; [done|]. by left.
        -- by rewrite lookup_delete_ne.
    + case_bool_decide as H1; case_bool_decide as H2; try done.
      * destruct H2. split; [tauto|]. right. tauto.
      * destruct H2 as [? [->|?]%elem_of_cons]; [lia|]. destruct H1. by split.
Qed.

Lemma truncateScan_at_None items l : ∀ i c a,
  items ∉ l → (truncateScan items i l c a).2 = a.
Proof.
  induction l as [|v l IH]; intros i c a Hn; simpl; [done|].
  apply not_elem_of_cons in Hn as [Hne Hn]. rewrite IH by done.
  by destruct (N.eqb_spec v items); [congruence|].
Qed.

Lemma truncateScan_at_Some items l : ∀ i c a,
  items ∈ l →
  ∃ k, (truncateScan items i l c a).2 = Some (i + k)%nat ∧
       l !! k = Some items ∧ items ∉ drop (S k) l.
Proof.
  induction l as [|v l IH]; intros i c a Hin; simpl.
  - by apply elem_of_nil in Hin.
  - destruct (decide (items ∈ l)) as [Hl|Hl].
    + destruct (IH (S i) (if items <=? v then delete v c else c)
                  (if v =? items then Some i else a) Hl) as (k & H1 & H2 & H3).
      exists (S k). split; [|done]. rewrite H1. f_equal. lia.
    + apply elem_of_cons in Hin as [->|?]; [|done].
      exists 0%nat. rewrite truncateScan_at_None by done.
      rewrite N.eqb_refl. split; [f_equal; lia|]. split; [done|]. by rewrite drop_0.
Qed.

Lemma filter_below_nil x l :
  Forall (N.lt x) l → filter (λ n, n < x) l = [].
Proof.
  induction 1 as [|a l Ha _ IH]; [done|].
  rewrite filter_cons_False by lia. done.
Qed.

Lemma take_sorted_below l : ∀ i x,
  StronglySorted N.lt l → l !! i = Some x →
  take i l = filter (λ n, n < x) l.
Proof.
  induction l as [|a l IH]; intros i x Hs Hi; [done|].
  apply StronglySorted_inv in Hs as [Hs Hall].
  destruct i as [|i]; simpl in *.
  - injection Hi as ->. rewrite filter_cons_False by lia.
    by rewrite filter_below_nil.
  - assert (a < x) as Hax.
    { rewrite Forall_forall in Hall. apply Hall. apply list_elem_of_In.
      by eapply list_elem_of_lookup_2. }
    rewrite filter_cons_True by done. f_equal. by apply IH.
Qed.

(** Truncation to a number that is among the cached ones stays in the
    write cache: the cached numbers from the last occurrence of the target on
    are dropped from the sequence, the records of the cached numbers at or
    above the target leave the map, frozen count and marker become the
    target, and no group object is fetched, deleted or uploaded. When the
    cached numbers ascend, those kept are exactly the ones below the
    target. *)
Theorem TruncateAncients_within_cache io items w w' :
  items ∈ cacheS (fz w) →
  TruncateAncients io items w = Returns None w' →
  (∃ i, cacheS (fz w) !! i = Some items ∧
        (items ∉ drop (S i) (cacheS (fz w))) ∧
        cacheS (fz w') = take i (cacheS (fz w))) ∧
  (StronglySorted N.lt (cacheS (fz w)) →
   cacheS (fz w') = filter (λ n, n < items) (cacheS (fz w))) ∧
  (∀ n, cache (fz w') !! n =
        if bool_decide (items ≤ n ∧ n ∈ cacheS (fz w)) then None
        else cache (fz w) !! n) ∧
  frozen (fz w') = Some items ∧
  bucket w' = <[indexMarkerKey := Text (FormatUint items)]> (bucket w) ∧
  requests w' = ReqPutObject indexMarkerKey (Text (FormatUint items)) :: requests w.
Proof.
  intros Hin (_ & _ & H)%TruncateAncients_scanned. cbn zeta in H.
  destruct (truncateScan_at_Some items (cacheS (fz w)) 0 (cache (fz w)) None Hin)
    as (k & Hat & Hk & Hdrop).
  rewrite Hat in H. cbn [Nat.add] in H.
  apply truncateCached_inv in H as (HS & Hc & _ & _ & Hreq & Hfr & Hb). cbn in *.
  split; [by exists k|]. split.
  { intros Hs. rewrite HS. by apply take_sorted_below. }
  split.
  { intros n. rewrite Hc. apply truncateScan_cache. }
  done.
Qed.

(** Truncation to a multiple of the group size that is not among the
    cached numbers empties the write cache, whatever it held, deletes the
    objects listed after the key of the target, uploads nothing, and sets
    frozen count and marker to the target. *)
Theorem TruncateAncients_aligned_target io items w n0 l n :
  cacheS (fz w) = n0 :: l →
  objectGroupSize (fz w) ≠ 0 →
  n0 mod objectGroupSize (fz w) = 0 →
  items ∉ cacheS (fz w) →
  items mod objectGroupSize (fz w) = 0 →
  frozen (fz w) = Some n →
  delete_fault io = None →
  put_fault io indexMarkerKey = None →
  TruncateAncients io items w =
  Returns None
    {| fz := {| frozen := Some items; objectGroupSize := objectGroupSize (fz w);
                retrieved := retrieved (fz w); cache := ∅; cacheS := [] |};
       bucket := <[indexMarkerKey := Text (FormatUint items)]>
                   (filter (λ kv, String.ltb (groupKey (objectGroupSize (fz w)) items) kv.1
                                  = false) (bucket w));
       requests := [ReqPutObject indexMarkerKey (Text (FormatUint items));
                    ReqBatchDelete (groupKey (objectGroupSize (fz w)) items)]
                   ++ requests w |}.
Proof.
  intros HS Hgs Hmod Hnin Hitems Hfr Hdel Hput.
  rewrite TruncateAncients_unfold. unfold bind at 1.
  rewrite (assertCacheBeginsAtMod_ok w n0 l) by done.
  unfold bind at 1. unfold get_fz at 1.
  pose proof (truncateScan_at_None items (cacheS (fz w)) 0 (cache (fz w)) None Hnin) as Hat.
  destruct (truncateScan items 0 (cacheS (fz w)) (cache (fz w)) None) as [c at_].
  cbn in Hat. subst at_.
  unfold bind at 1. unfold modify_fz at 1.
  unfold truncateRemote. unfold bind at 1.
  rewrite (assertCacheBeginsAtMod_ok _ n0 l) by done.
  unfold loadFrozen. unfold bind at 1 2. unfold get_fz at 1. cbn [fz frozen set_cache].
  rewrite Hfr. unfold ret at 1. unfold bind at 1. unfold umod.
  destruct (N.eqb_spec (objectGroupSize (fz w)) 0) as [|_]; [done|].
  unfold ret at 1. rewrite Hitems. unfold bind at 1.
  unfold refillFromRemote. cbn [N.eqb negb]. unfold bind at 1. unfold modify_fz at 1.
  unfold ret at 1. unfold bind at 1. rewrite objectKeyForN_ok by done.
  unfold bind at 1. unfold BatchDelete. rewrite Hdel.
  unfold setIndexMarker, PutObject, storeFrozen. run. rewrite Hput. run.
  rewrite map_size_empty, bool_decide_eq_false_2 by lia. cbn. by rewrite Hfr.
Qed.

End TruncatePaths.

(** ** Reads *)

Section ReadPaths.

Context `{RC : RecordCodec} `{FS : FreezerSchema}.

Implicit Types (w : world) (f : freezerRemoteS3) (io : faults).

Lemma RLPBytesForKind_inv obj kind w b w' :
  RLPBytesForKind obj kind w = Returns b w' →
  w' = w ∧ ∀ w2, RLPBytesForKind obj kind w2 = Returns b w2.
Proof.
  unfold RLPBytesForKind.
  repeat (case_match; [by intros [= <- <-]|]). done.
Qed.

Lemma RLPBytesForKind_valid obj kind w :
  validKind kind → ∃ b, RLPBytesForKind obj kind w = Returns b w.
Proof.
  unfold validKind, RLPBytesForKind.
  intros [-> | [-> | [-> | [-> | ->]]]]; rewrite ?String.eqb_refl;
    repeat (case_match; [by eexists|]); by eexists.
Qed.

(** The loop of [Ancient] over the records of the fetched group: it
    fills the read-through cache and keeps the last record whose number is
    the one asked for. *)
Lemma retrieve_loop number target : ∀ w obj w',
  foldl (λ (acc : M AncientObjectS3) v,
           o ← acc;
           n ← headerNumber v;
           modify_fz (λ f, set_retrieved (<[n := v]> (retrieved f)) f) ;;
           if n =? number then ret v else ret o)
        (ret zeroObject) target w = Returns obj w' →
  (obj = zeroObject ∨ retrieved (fz w') !! number = Some obj) ∧
  frozen (fz w') = frozen (fz w) ∧ objectGroupSize (fz w') = objectGroupSize (fz w) ∧
  cache (fz w') = cache (fz w) ∧ cacheS (fz w') = cacheS (fz w) ∧
  bucket w' = bucket w ∧ requests w' = requests w.
Proof.
  induction target as [|v target IH] using rev_ind; intros w obj w'.
  - intros [= <- <-]. by split; [left|].
  - rewrite foldl_snoc. unfold bind at 1.
    match goal with |- context [foldl ?F ?a target w] =>
      destruct (foldl F a target w) as [o1 w1|] eqn:E; [|done] end.
    apply IH in E as (Ho1 & Hfr & Hgs & Hc & HS & Hb & Hr).
    unfold headerNumber. destruct (Header v) as [h|]; [|done].
    unfold bind, ret, modify_fz.
    destruct (N.eqb_spec (header_Number h) number) as [<-|Hne];
      intros [= <- <-]; cbn.
    + split; [right; by rewrite lookup_insert_eq|done].
    + split; [|done]. destruct Ho1 as [?|Ho1]; [by left|right].
      by rewrite lookup_insert_ne.
Qed.

(** What [Ancient] does on its way to the bucket. *)
Lemma Ancient_inv io kind number w r w' :
  Ancient io kind number w = Returns r w' →
  frozen (fz w') = frozen (fz w) ∧ objectGroupSize (fz w') = objectGroupSize (fz w) ∧
  cache (fz w') = cache (fz w) ∧ cacheS (fz w') = cacheS (fz w) ∧
  bucket w' = bucket w ∧
  ∀ b, r = (Some b, None) → ∀ io2, Ancient io2 kind number w' = Returns (Some b, None) w'.
Proof.
  unfold Ancient at 1, loadFrozen. unfold bind at 1 2. unfold get_fz at 1.
  destruct (frozen (fz w)) as [fr|] eqn:Hfr; [|done]. unfold ret at 1.
  assert (∀ obj b w2, frozen (fz w2) = Some fr → (fr <=? number) = false →
            (cache (fz w2) !! number = Some obj ∨
             cache (fz w2) !! number = None ∧ retrieved (fz w2) !! number = Some obj) →
            RLPBytesForKind obj kind w2 = Returns b w2 →
            ∀ io2, Ancient io2 kind number w2 = Returns (Some b, None) w2) as Hhit.
  { intros obj b w2 Hfr2 Hle Hobj Hb io2. unfold Ancient, loadFrozen.
    unfold bind at 1 2. unfold get_fz at 1. rewrite Hfr2. unfold ret at 1.
    rewrite Hle. unfold bind at 1. unfold get_fz at 1.
    destruct Hobj as [->|[-> ->]]; unfold bind; by rewrite Hb. }
  destruct (fr <=? number) eqn:Hle; [by intros [= <- <-]|].
  unfold bind at 1. unfold get_fz at 1.
  destruct (cache (fz w) !! number) as [v|] eqn:Hc.
  { unfold bind. destruct (RLPBytesForKind v kind w) as [b w1|] eqn:Eb; [|done].
    pose proof Eb as [-> Hb]%RLPBytesForKind_inv. unfold ret. intros [= <- <-].
    repeat split; try done. intros b' [= <-]. apply (Hhit v); auto. }
  destruct (retrieved (fz w) !! number) as [v|] eqn:Hr.
  { unfold bind. destruct (RLPBytesForKind v kind w) as [b w1|] eqn:Eb; [|done].
    pose proof Eb as [-> Hb]%RLPBytesForKind_inv. unfold ret. intros [= <- <-].
    repeat split; try done. intros b' [= <-]. apply (Hhit v); auto. }
  unfold bind at 1. destruct (objectKeyForN number w) as [key w1|] eqn:E1; [|done].
  apply objectKeyForN_inv in E1 as (-> & _ & _).
  unfold bind at 1. destruct (Download io key w) as [d w2|] eqn:E2; [|done].
  apply Download_inv in E2 as (-> & _).
  destruct d as [e|buf].
  { destruct (hasAwsCode ErrCodeNoSuchKey e); by intros [= <- <-]. }
  destruct (json_Unmarshal buf) as [e|target]; [by intros [= <- <-]|].
  unfold bind at 1. unfold modify_fz at 1. unfold bind at 1.
  match goal with |- context [foldl ?F ?a target ?w0] =>
    destruct (foldl F a target w0) as [obj w3|] eqn:E3; [|done] end.
  apply retrieve_loop in E3 as (Hobj & Hfr3 & Hgs3 & Hc3 & HS3 & Hb3 & _). cbn in *.
  case_bool_decide as Hz; [done|].
  unfold bind. destruct (RLPBytesForKind obj kind w3) as [b w4|] eqn:Eb; [|done].
  pose proof Eb as [-> Hb]%RLPBytesForKind_inv. unfold ret. intros [= Heq1 Heq2]. subst r w'.
  repeat split; try congruence. intros b' [= <-]. apply (Hhit obj).
  - congruence.
  - done.
  - right. split; [congruence|]. by destruct Hobj as [->|?].
  - done.
Qed.

(** Reads do not disturb the store: [Ancient] changes neither the frozen
    count, the group size, the write cache nor the bucket, whatever it
    returns. *)
Theorem Ancient_reads_only io kind number w r w' :
  Ancient io kind number w = Returns r w' →
  frozen (fz w') = frozen (fz w) ∧ objectGroupSize (fz w') = objectGroupSize (fz w) ∧
  cache (fz w') = cache (fz w) ∧ cacheS (fz w') = cacheS (fz w) ∧
  bucket w' = bucket w.
Proof. intros H. apply Ancient_inv in H. tauto. Qed.

(** A read that has answered with a blob answers the same blob when
    repeated, whatever the bucket does meanwhile, and the repeat changes
    nothing: it is served from the write cache or from the read-through
    cache, without a request. *)
Theorem Ancient_repeat io io2 kind number w b w' :
  Ancient io kind number w = Returns (Some b, None) w' →
  Ancient io2 kind number w' = Returns (Some b, None) w'.
Proof. intros H. apply Ancient_inv in H as (_ & _ & _ & _ & _ & H). by apply H. Qed.

End ReadPaths.

Section MoreReads.

Context `{RC : RecordCodec} `{FS : FreezerSchema}.

Implicit Types (w : world) (f : freezerRemoteS3) (io : faults).

Lemma retrieve_loop_miss number target : ∀ w,
  Forall (λ v, ∃ h, Header v = Some h ∧ header_Number h ≠ number) target →
  ∃ w',
    foldl (λ (acc : M AncientObjectS3) v,
             o ← acc;
             n ← headerNumber v;
             modify_fz (λ f, set_retrieved (<[n := v]> (retrieved f)) f) ;;
             if n =? number then ret v else ret o)
          (ret zeroObject) target w = Returns zeroObject w'.
Proof.
  induction target as [|v target IH] using rev_ind; intros w Hall.
  - by exists w.
  - apply Forall_app in Hall as [Hall Hv]. apply Forall_singleton in Hv as (h & Hh & Hne).
    destruct (IH w Hall) as [w1 E]. rewrite foldl_snoc. unfold bind at 1. rewrite E.
    unfold headerNumber. rewrite Hh. unfold bind, ret, modify_fz.
    destruct (N.eqb_spec (header_Number h) number); [done|]. by eexists.
Qed.

(** A read below the frozen count that has to go to the bucket, and finds
    the group object there but no record of the number in it, panics; it
    does not return an error. *)
Theorem Ancient_record_missing_from_group_panics io kind number n target w :
  frozen (fz w) = Some n →
  number < n →
  objectGroupSize (fz w) ≠ 0 →
  cache (fz w) !! number = None →
  retrieved (fz w) !! number = None →
  get_fault io (groupKey (objectGroupSize (fz w)) number) = None →
  bucket w !! groupKey (objectGroupSize (fz w)) number = Some (JSONRecords target) →
  Forall (λ v, ∃ h, Header v = Some h ∧ header_Number h ≠ number) target →
  ∃ w', Ancient io kind number w = Panics PanicBad w'.
Proof.
  intros Hfr Hlt Hgs Hc Hr Hio Hb Hall.
  unfold Ancient, loadFrozen. unfold bind at 1 2. unfold get_fz at 1.
  rewrite Hfr. unfold ret at 1. destruct (N.leb_spec n number); [lia|].
  unfold bind at 1. unfold get_fz at 1. rewrite Hc, Hr.
  unfold bind at 1. rewrite objectKeyForN_ok by done.
  unfold bind at 1. unfold Download. unfold bind at 1. unfold log_request at 1.
  rewrite Hio. unfold bind at 1. unfold get_bucket at 1. cbn [bucket]. rewrite Hb.
  unfold ret at 1. cbn [json_Unmarshal]. unfold bind at 1. unfold modify_fz at 1.
  unfold bind at 1.
  match goal with |- context [foldl ?F ?a target ?w0] =>
    destruct (retrieve_loop_miss number target w0 Hall) as [w3 E] end.
  rewrite E. rewrite bool_decide_eq_true_2 by done. by eexists.
Qed.

(** After a successful [AppendAncient] of the number the frozen count
    stands at, [HasAncient] reports that number as present for each of the
    five kinds, without asking the bucket. *)
Theorem HasAncient_after_AppendAncient n hash header body receipts td w w' io kind :
  frozen (fz w) = Some n →
  n < maxUint64 →
  validKind kind →
  AppendAncient n hash header body receipts td w = Returns None w' →
  HasAncient io kind n w' = Returns (true, None) w'.
Proof.
  intros Hfr Hn Hk H.
  destruct (NewAncientObjectS3 hash header body receipts td) as [e|obj] eqn:Hdec.
  { unfold AppendAncient in H. by rewrite Hdec in H. }
  pose proof (Ancient_of_appended n hash header body receipts td obj w w' io kind
                Hfr Hn Hdec H) as HA.
  unfold HasAncient. unfold bind at 1. rewrite HA.
  destruct (RLPBytesForKind_valid obj kind w' Hk) as [b Hb].
  unfold bind. rewrite Hb. unfold ret. by rewrite bool_decide_eq_true_2.
Qed.

End MoreReads.

(** ** [sliceIndexOf] *)

Lemma sliceIndexOf_from_Some sl n : ∀ i0 i,
  sliceIndexOf_from i0 sl n = Some i →
  (i0 ≤ i)%nat ∧ sl !! (i - i0)%nat = Some n ∧
  ∀ j, (j < i - i0)%nat → sl !! j ≠ Some n.
Proof.
  induction sl as [|s sl IH]; intros i0 i; simpl; [done|].
  destruct (N.eqb_spec s n) as [->|Hne].
  - intros [= <-]. rewrite Nat.sub_diag. split; [lia|]. split; [done|]. lia.
  - intros (Hle & Hi & Hj)%IH. split; [lia|].
    replace (i - i0)%nat with (S (i - S i0)) by lia. split; [done|].
    intros [|j] Hlt; simpl; [congruence|]. apply Hj. lia.
Qed.

(** [sliceIndexOf] finds the first position of a number in a slice, and
    answers -1 exactly when the number is not in it. *)
Theorem sliceIndexOf_spec sl n :
  match sliceIndexOf sl n with
  | Some i => sl !! i = Some n ∧ ∀ j, (j < i)%nat → sl !! j ≠ Some n
  | None => n ∉ sl
  end.
Proof.
  unfold sliceIndexOf. destruct (sliceIndexOf_from 0 sl n) as [i|] eqn:E.
  - apply sliceIndexOf_from_Some in E as (_ & Hi & Hj).
    rewrite Nat.sub_0_r in *. by split.
  - by apply sliceIndexOf_from_None in E.
Qed.

(** ** The constructor *)

Section Startup.

Context `{RC : RecordCodec} `{FS : FreezerSchema}.

Implicit Types (w : world) (f : freezerRemoteS3) (io : faults).

Lemma initializeBucket_ready io w :
  bucketReady io →
  initializeBucket io w =
  Returns None {| fz := fz w; bucket := bucket w;
                  requests := bucketRequests io ++ requests w |}.
Proof.
  unfold bucketReady, bucketRequests, initializeBucket. run.
  destruct (create_bucket_fault io) as [e|]; run.
  - by intros ->.
  - by intros ->.
Qed.

(** On a bucket without a marker, and on one whose marker body is not a
    decimal number, the constructor returns a store with frozen count 0 and
    an empty write cache, and no error: the parse error of the marker is
    dropped. *)
Theorem newFreezerRemoteS3_without_count io env gs w :
  groupsFromEnv env gs →
  session_fault io = None →
  bucketReady io →
  get_fault io indexMarkerKey = None →
  (bucket w !! indexMarkerKey = None ∨
   ∃ s, bucket w !! indexMarkerKey = Some (Text s) ∧ ParseUint s = (0, Some ErrSyntax)) →
  newFreezerRemoteS3 io env w =
  Returns (true, None)
    {| fz := {| frozen := Some 0; objectGroupSize := gs; retrieved := ∅;
                cache := ∅; cacheS := [] |};
       bucket := bucket w;
       requests := ReqGetObject indexMarkerKey :: bucketRequests io ++ requests w |}.
Proof.
  intros Henv Hs Hb Hio Hm. unfold newFreezerRemoteS3.
  assert ((if String.eqb env "" then (32, None) else ParseUint env) = (gs, None)) as ->.
  { destruct Henv as [[-> ->]|[Hne ->]]; [done|].
    by destruct (String.eqb_spec env ""). }
  unfold bind at 1. unfold modify_fz at 1. rewrite Hs.
  unfold bind at 1. rewrite initializeBucket_ready by done.
  unfold Ancients, GetObject. run. rewrite Hio. run.
  destruct Hm as [->|(s & -> & ->)]; by run.
Qed.

End Startup.

(** ** Restart after a [Sync] *)

Section Restart.

Context `{RC : RecordCodec} `{FS : FreezerSchema}.

Implicit Types (w : world) (f : freezerRemoteS3) (io : faults)
  (c : gmap N AncientObjectS3).

(** What a successful [Sync] of a non-empty sequence of cached numbers
    leaves in the store and in the bucket. *)
Lemma Sync_establishes io w w1 :
  cacheS (fz w) ≠ [] →
  size (cache (fz w)) ≠ 0%nat →
  Sync io w = Returns None w1 →
  ∃ m n,
    objectGroupSize (fz w1) = objectGroupSize (fz w) ∧
    headAligned (fz w1) ∧
    list.last (cacheS (fz w1)) = Some m ∧
    frozen (fz w) = Some n ∧ frozen (fz w1) = Some n ∧
    bucket w1 !! groupKey (objectGroupSize (fz w)) m =
      Some (json_Marshal (map (cached (cache (fz w1))) (cacheS (fz w1)))) ∧
    bucket w1 !! indexMarkerKey = Some (Text (FormatUint n)).
Proof.
  intros HS Hsz [[? _]|(_ & wp & n & HP & Hfr & ->)]%Sync_inv; [done|].
  pose proof (pushCache_headAligned _ _ _ HP) as Hal.
  pose proof (pushCache_frame _ _ _ _ HP) as (Hfr' & _).
  apply pushCache_inv in HP as (Hgs & Hrem & ->); [|done].
  set (gs := objectGroupSize (fz w)) in *.
  set (st := sealPure gs (cache (fz w)) (cacheS (fz w)) noSealing) in *.
  destruct (sealPure_last_upload gs (cache (fz w)) (cacheS (fz w)) noSealing)
    as (ups & m & _ & Hlast & Hups); [done|done|done|].
  fold st in Hlast, Hups.
  assert (map (cached (evict (remainders st) (cacheS (fz w)) (cache (fz w)))) (remainders st)
          = map (cached (cache (fz w))) (remainders st)) as Hsame.
  { apply map_ext_in. intros k Hk%list_elem_of_In. unfold cached.
    by rewrite evict_lookup. }
  exists m, n. cbn in *. split; [done|]. split; [done|]. split; [done|].
  split; [congruence|]. split; [done|]. split.
  - rewrite lookup_insert_ne by (symmetry; apply awsKeyBlock_not_marker).
    rewrite Hups, putAll_snoc, lookup_insert_eq. by rewrite Hsame.
  - by rewrite lookup_insert_eq.
Qed.

(** The loop of [initCache] over records that carry the numbers [nums]. *)
Lemma initCache_loop target : ∀ nums w,
  Forall2 (λ v k, ∃ h, Header v = Some h ∧ header_Number h = k) target nums →
  forM_ target (λ v,
    n ← headerNumber v;
    modify_fz (λ f, set_cache (<[n := v]> (cache f)) (set_cacheS (cacheS f ++ [n]) f))) w =
  Returns ()
    {| fz := set_cache (foldl (λ c vk, <[vk.2 := vk.1]> c) (cache (fz w)) (zip target nums))
               (set_cacheS (cacheS (fz w) ++ nums) (fz w));
       bucket := bucket w; requests := requests w |}.
Proof.
  induction target as [|v target IH]; intros nums w Hall.
  - inversion_clear Hall. destruct w as [[] ? ?]. simpl. by rewrite app_nil_r.
  - inversion Hall as [|? k ? nums' (h & Hh & Hk) Hrest]; subst.
    simpl. unfold bind at 1. unfold headerNumber at 1. rewrite Hh.
    unfold ret at 1. unfold bind at 1. unfold modify_fz at 1.
    rewrite (IH nums') by done. cbn. by rewrite <- app_assoc.
Qed.

Lemma Forall2_map_diag {A B} (Q : A → B → Prop) (g : B → A) (l : list B) :
  (∀ k, k ∈ l → Q (g k) k) → Forall2 Q (map g l) l.
Proof.
  induction l as [|a l IH]; intros H; simpl; constructor.
  - apply H. by left.
  - apply IH. intros k Hk. apply H. by right.
Qed.

Lemma refill_lookup c nums : ∀ base k,
  k ∈ nums →
  foldl (λ c' vk, <[vk.2 := vk.1]> c') base (zip (map (cached c) nums) nums) !! k =
  Some (cached c k).
Proof.
  induction nums as [|a nums IH] using rev_ind; intros base k Hk.
  - by apply elem_of_nil in Hk.
  - rewrite map_app, zip_with_app by (by rewrite length_map).
    cbn [map zip_with]. rewrite foldl_snoc. cbn.
    destruct (decide (a = k)) as [->|Hne]; [by rewrite lookup_insert_eq|].
    rewrite lookup_insert_ne by done. apply IH.
    apply elem_of_app in Hk as [?|?%list_elem_of_singleton]; [done|congruence].
Qed.

Lemma Ancients_at_startup io w s :
  frozen (fz w) = None →
  get_fault io indexMarkerKey = None →
  bucket w !! indexMarkerKey = Some (Text s) →
  Ancients io w =
  Returns (ParseUint s)
    {| fz := fz w; bucket := bucket w;
       requests := ReqGetObject indexMarkerKey :: requests w |}.
Proof.
  intros Hfr Hio Hb. unfold Ancients, GetObject. run. rewrite Hfr. run.
  rewrite Hio. run. by rewrite Hb.
Qed.

Lemma initCache_ok io n w target nums n0 l0 :
  objectGroupSize (fz w) ≠ 0 →
  get_fault io (groupKey (objectGroupSize (fz w)) n) = None →
  bucket w !! groupKey (objectGroupSize (fz w)) n = Some (JSONRecords target) →
  Forall2 (λ v k, ∃ h, Header v = Some h ∧ header_Number h = k) target nums →
  cacheS (fz w) ++ nums = n0 :: l0 →
  n0 mod objectGroupSize (fz w) = 0 →
  initCache io n w =
  Returns None
    {| fz := set_cache (foldl (λ c vk, <[vk.2 := vk.1]> c) (cache (fz w)) (zip target nums))
               (set_cacheS (cacheS (fz w) ++ nums) (fz w));
       bucket := bucket w;
       requests := ReqDownload (groupKey (objectGroupSize (fz w)) n) :: requests w |}.
Proof.
  intros Hgs Hio Hb Hall HS Hmod. unfold initCache.
  unfold bind at 1. rewrite objectKeyForN_ok by done.
  unfold bind at 1. unfold Download. unfold bind at 1. unfold log_request at 1.
  rewrite Hio. unfold bind at 1. unfold get_bucket at 1. cbn [bucket]. rewrite Hb.
  unfold ret at 1. cbn [json_Unmarshal]. unfold bind at 1.
  rewrite (initCache_loop _ nums) by done. cbn [fz bucket requests].
  unfold bind at 1. rewrite (assertCacheBeginsAtMod_ok _ n0 l0); [done| |done|done].
  destruct (fz w); cbn in *. done.
Qed.

(** Restart after a successful [Sync]. The store held cached records,
    each carrying its own number in its header; the frozen count is not zero
    and lies in the group of the last cached number. A constructor run on the
    bucket that this [Sync] left, with the same group size and no fault of
    the bucket, returns a store with the same frozen count, the same
    sequence of cached numbers and the same record for each of them. *)
Theorem newFreezerRemoteS3_after_Sync io io' env w w1 n f0 r0 :
  cacheS (fz w) ≠ [] →
  size (cache (fz w)) ≠ 0%nat →
  Sync io w = Returns None w1 →
  frozen (fz w) = Some n →
  0 < n ≤ maxUint64 →
  (∀ k, k ∈ cacheS (fz w1) →
        ∃ v h, cache (fz w1) !! k = Some v ∧ Header v = Some h ∧ header_Number h = k) →
  (∀ m, list.last (cacheS (fz w1)) = Some m →
        n `div` objectGroupSize (fz w) = m `div` objectGroupSize (fz w)) →
  groupsFromEnv env (objectGroupSize (fz w)) →
  session_fault io' = None →
  bucketReady io' →
  (∀ key, get_fault io' key = None) →
  ∃ w2,
    newFreezerRemoteS3 io' env {| fz := f0; bucket := bucket w1; requests := r0 |} =
      Returns (true, None) w2 ∧
    frozen (fz w2) = Some n ∧
    objectGroupSize (fz w2) = objectGroupSize (fz w1) ∧
    cacheS (fz w2) = cacheS (fz w1) ∧
    (∀ k, k ∈ cacheS (fz w1) → cache (fz w2) !! k = cache (fz w1) !! k) ∧
    bucket w2 = bucket w1.
Proof.
  intros HS Hsz Hsync Hfr [Hpos Hmax] Hnum Hgrp Henv Hs Hready Hio.
  destruct (Sync_establishes io w w1 HS Hsz Hsync)
    as (m & n' & Hgs1 & Hal & Hlast & Hfr0 & Hfr1 & Hgroup & Hmarker).
  assert (n' = n) as -> by congruence.
  set (gs := objectGroupSize (fz w)) in *.
  assert (gs ≠ 0 ∧ ∃ n0 l0, cacheS (fz w1) = n0 :: l0 ∧ n0 mod gs = 0)
    as (Hgs & n0 & l0 & HS1 & Hmod).
  { unfold headAligned in Hal. destruct (cacheS (fz w1)) as [|n0 l0]; [done|].
    rewrite Hgs1 in Hal. destruct Hal. split; [done|]. by exists n0, l0. }
  unfold newFreezerRemoteS3.
  assert ((if String.eqb env "" then (32, None) else ParseUint env) = (gs, None)) as ->.
  { destruct Henv as [[-> ->]|[Hne ->]]; [done|].
    by destruct (String.eqb_spec env ""). }
  unfold bind at 1. unfold modify_fz at 1. rewrite Hs.
  unfold bind at 1. rewrite initializeBucket_ready by done.
  unfold bind at 1.
  rewrite (Ancients_at_startup _ _ (FormatUint n)) by done.
  rewrite ParseUint_FormatUint by done.
  unfold bind at 1. unfold modify_fz at 1.
  destruct (N.ltb_spec 0 n); [|lia].
  unfold bind at 1.
  rewrite (initCache_ok io' n _ (map (cached (cache (fz w1))) (cacheS (fz w1)))
             (cacheS (fz w1)) n0 l0); cbn [fz bucket objectGroupSize set_frozen emptyFreezer cacheS];
    try done.
  - unfold ret. eexists. split; [reflexivity|]. cbn.
    split; [done|]. split; [done|]. split; [done|]. split; [|done].
    intros k Hk. rewrite refill_lookup by done.
    destruct (Hnum k Hk) as (v & h & Hv & _). unfold cached. by rewrite Hv.
  - unfold groupKey in *. by rewrite (Hgrp m Hlast).
  - apply Forall2_map_diag. intros k Hk. destruct (Hnum k Hk) as (v & h & Hv & Hh & Hk').
    exists h. unfold cached. by rewrite Hv.
Qed.

End Restart.
(** ** What a [Sync] leaves in the bucket *)

Section Durable.

Context `{RC : RecordCodec} `{FS : FreezerSchema}.

Implicit Types (w : world) (f : freezerRemoteS3) (io : faults).

Lemma countFrom_snoc k : ∀ n, countFrom n (S k) = countFrom n k ++ [n + N.of_nat k].
Proof.
  induction k as [|k IH]; intros n.
  - simpl. by rewrite N.add_0_r.
  - change (countFrom n (S (S k))) with (n :: countFrom (n + 1) (S k)).
    rewrite IH. simpl. do 3 f_equal. lia.
Qed.

Lemma elem_of_countFrom m k : ∀ n, m ∈ countFrom n k ↔ n ≤ m < n + N.of_nat k.
Proof.
  induction k as [|k IH]; intros n; simpl.
  - split; [by intros ?%elem_of_nil|lia].
  - rewrite elem_of_cons, IH. lia.
Qed.

Lemma sealPure_uploads_app gs c l : ∀ st, ∃ new,
  uploads (sealPure gs c l st) = uploads st ++ new ∧
  Forall (λ kv, ∃ m, m ∈ l ∧ kv.1 = groupKey gs m) new.
Proof.
  induction l as [|n l IH]; intros st; simpl.
  - exists []. by rewrite app_nil_r.
  - destruct (IH (sealStepPure gs c n (bool_decide (l = [])) st)) as (new & -> & Hnew).
    assert (∃ new0, uploads (sealStepPure gs c n (bool_decide (l = [])) st)
                    = uploads st ++ new0 ∧
                    Forall (λ kv, ∃ m, m ∈ n :: l ∧ kv.1 = groupKey gs m) new0)
      as (new0 & -> & Hnew0).
    { unfold sealStepPure.
      destruct (endsGroup gs n); [|destruct (bool_decide (l = []))]; simpl.
      - eexists. split; [done|]. apply Forall_singleton. exists n. split; [left|done].
      - eexists. split; [done|]. apply Forall_singleton. exists n. split; [left|done].
      - exists []. by rewrite app_nil_r. }
    exists (new0 ++ new). rewrite app_assoc. split; [done|].
    apply Forall_app. split; [done|].
    eapply Forall_impl; [|exact Hnew]. intros kv (m & Hm & E). exists m.
    split; [by right|exact E].
Qed.

Lemma putAll_frame new : ∀ ups (b : gmap string s3_body) key,
  Forall (λ kv, kv.1 ≠ key) new →
  putAll (ups ++ new) b !! key = putAll ups b !! key.
Proof.
  induction new as [|[k v] new IH] using rev_ind; intros ups b key H.
  - by rewrite app_nil_r.
  - apply Forall_app in H as [H1 H2%Forall_inv]. simpl in H2.
    rewrite app_assoc, putAll_snoc, lookup_insert_ne by done. by apply IH.
Qed.

Lemma endsGroup_spec gs n :
  n < maxUint64 → endsGroup gs n = true ↔ (n + 1) `mod` gs = 0.
Proof.
  intros Hn. unfold endsGroup, wrap64. rewrite (N.mod_small (n + 1)).
  - apply N.eqb_eq.
  - unfold maxUint64 in Hn. lia.
Qed.

Lemma groupKey_eq gs n m :
  gs ≠ 0 → n `div` gs = m `div` gs → groupKey gs n = groupKey gs m.
Proof. unfold groupKey. by intros _ ->. Qed.

Lemma groupKey_ne gs n m :
  gs ≠ 0 → n ≤ maxUint64 → m ≤ maxUint64 →
  n `div` gs ≠ m `div` gs → groupKey gs n ≠ groupKey gs m.
Proof.
  intros Hgs Hn Hm Hne H. apply Hne. unfold groupKey in H.
  apply awsKeyBlock_digits in H.
  - by apply N.mul_cancel_r in H.
  - pose proof (N.Div0.mul_div_le n gs). lia.
  - pose proof (N.Div0.mul_div_le m gs). lia.
Qed.

Lemma same_group gs a m lo :
  gs ≠ 0 → lo - lo `mod` gs ≤ a → a ≤ m → m ≤ lo → m `div` gs = lo `div` gs.
Proof.
  intros Hgs Ha Hm Hlo.
  pose proof (N.div_mod lo gs Hgs) as E. pose proof (N.mod_lt lo gs Hgs) as Hlt.
  symmetry. apply (N.div_unique m gs (lo `div` gs) (m - gs * (lo `div` gs)));
    set (q := lo `div` gs) in *; set (r := lo `mod` gs) in *; clearbody q r; lia.
Qed.

Lemma next_group gs lo n :
  gs ≠ 0 → (lo + 1) `mod` gs = 0 → lo + 1 ≤ n → n `div` gs ≠ lo `div` gs.
Proof.
  intros Hgs Hmod Hn H.
  pose proof (N.div_mod (lo + 1) gs Hgs) as E. rewrite Hmod in E.
  pose proof (N.div_mod lo gs Hgs) as E1. pose proof (N.mod_lt lo gs Hgs) as Hlt1.
  pose proof (N.div_mod n gs Hgs) as E2. pose proof (N.mod_lt n gs Hgs) as Hlt2.
  rewrite H in E2. clear H Hmod.
  set (q := lo `div` gs) in *. set (r := lo `mod` gs) in *.
  set (q' := (lo + 1) `div` gs) in *. set (r2 := n `mod` gs) in *.
  clearbody q r q' r2.
  assert (q < q') as Hq by (apply (N.mul_lt_mono_pos_l gs); lia).
  assert (gs * (q + 1) ≤ gs * q') as Hq' by (apply N.mul_le_mono_l; lia).
  lia.
Qed.

Lemma group_floor_succ gs lo :
  gs ≠ 0 → (lo + 1) `mod` gs ≠ 0 → lo + 1 - (lo + 1) `mod` gs = lo - lo `mod` gs.
Proof.
  intros Hgs Hmod.
  pose proof (N.div_mod lo gs Hgs) as E1. pose proof (N.mod_lt lo gs Hgs) as L1.
  set (q := lo `div` gs) in *. set (r := lo `mod` gs) in *. clearbody q r.
  destruct (decide (r + 1 = gs)) as [Heq|Hne].
  - destruct Hmod. symmetry. apply (N.mod_unique (lo + 1) gs (q + 1) 0); lia.
  - assert ((lo + 1) `mod` gs = r + 1) as ->.
    { symmetry. apply (N.mod_unique (lo + 1) gs q); lia. }
    lia.
Qed.

Lemma elem_of_map_2 {A B} (g : A → B) (l : list A) x : x ∈ l → g x ∈ map g l.
Proof. intros H. by apply list_elem_of_In, in_map, list_elem_of_In. Qed.

Lemma sealPure_places gs c (b : gmap string s3_body) : ∀ k lo a st,
  gs ≠ 0 →
  lo + N.of_nat k ≤ maxUint64 →
  k ≠ 0%nat →
  a ≤ lo → lo - lo `mod` gs ≤ a →
  remainders st = countFrom a (N.to_nat (lo - a)) →
  set st = map (cached c) (remainders st) →
  ∀ m, a ≤ m < lo + N.of_nat k →
  ∃ ns, putAll (uploads (sealPure gs c (countFrom lo k) st)) b !! groupKey gs m
          = Some (JSONRecords (map (cached c) ns)) ∧
        m ∈ ns ∧ ∀ n, n ∈ ns → a ≤ n < lo + N.of_nat k.
Proof.
  induction k as [|k IH]; intros lo a st Hgs Hmax Hk Ha Hlow Hrem Hset m Hm; [done|].
  cbn [countFrom sealPure].
  set (lst := bool_decide (countFrom (lo + 1) k = [])).
  assert (m ≤ lo → groupKey gs m = groupKey gs lo) as Hkey.
  { intros Hle. apply groupKey_eq; [done|]. apply (same_group gs a); [done|done|lia|done]. }
  assert (remainders st ++ [lo] = countFrom a (N.to_nat (lo + 1 - a))) as Hrem1.
  { replace (N.to_nat (lo + 1 - a)) with (S (N.to_nat (lo - a))) by lia.
    rewrite countFrom_snoc, Hrem. do 2 f_equal. lia. }
  assert (set st ++ [cached c lo] = map (cached c) (countFrom a (N.to_nat (lo + 1 - a))))
    as Hset1.
  { by rewrite <- Hrem1, map_app, Hset. }
  assert (m ≤ lo →
          m ∈ countFrom a (N.to_nat (lo + 1 - a)) ∧
          ∀ n, n ∈ countFrom a (N.to_nat (lo + 1 - a)) → a ≤ n < lo + N.of_nat (S k))
    as Hns.
  { intros Hle. split; [apply elem_of_countFrom; lia|].
    intros n Hn%elem_of_countFrom. lia. }
  unfold sealStepPure at 1.
  destruct (endsGroup gs lo) eqn:Hend.
  - apply endsGroup_spec in Hend; [|unfold maxUint64 in *; lia].
    cbn [orb set uploads remainders].
    destruct (decide (m ≤ lo)) as [Hle|Hgt].
    + match goal with |- context [sealPure gs c ?l ?st1] =>
        destruct (sealPure_uploads_app gs c l st1) as (new & -> & Hnew) end.
      cbn [uploads]. rewrite putAll_frame.
      * rewrite putAll_snoc, Hkey, lookup_insert_eq by done.
        unfold json_Marshal. rewrite Hset1. eexists. split; [done|]. by apply Hns.
      * eapply Forall_impl; [|exact Hnew]. intros kv (n & Hn & E). rewrite E, Hkey by done.
        apply elem_of_countFrom in Hn.
        apply groupKey_ne; [done|lia|lia|]. by apply next_group; [| |lia].
    + destruct k as [|k]; [lia|].
      destruct (IH (lo + 1) (lo + 1)
                  {| set := [];
                     uploads := uploads st ++
                                [(groupKey gs lo, json_Marshal (set st ++ [cached c lo]))];
                     remainders := [] |}) with (m := m)
        as (ns & Hb & Hin & Hrange);
        [done | lia | done | lia | apply N.le_sub_l
        | cbn [remainders]; by rewrite N.sub_diag | done | lia |].
      exists ns. split; [done|]. split; [done|]. intros n Hn%Hrange. lia.
  - assert ((lo + 1) `mod` gs ≠ 0) as Hmod.
    { intros H. apply endsGroup_spec in H; [congruence|unfold maxUint64 in *; lia]. }
    cbn [orb]. destruct k as [|k].
    + subst lst. cbn [countFrom]. rewrite bool_decide_eq_true_2 by done.
      cbn [sealPure uploads]. rewrite putAll_snoc, Hkey, lookup_insert_eq by lia.
      unfold json_Marshal. rewrite Hset1. eexists. split; [done|]. apply Hns. lia.
    + subst lst. cbn [countFrom]. rewrite bool_decide_eq_false_2 by done.
      destruct (IH (lo + 1) a
                  {| set := set st ++ [cached c lo]; uploads := uploads st;
                     remainders := remainders st ++ [lo] |}) with (m := m)
        as (ns & Hb & Hin & Hrange);
        [done | lia | done | lia | by rewrite group_floor_succ
        | by rewrite <- Hrem1
        | cbn [set remainders]; rewrite map_app; by rewrite Hset | lia |].
      exists ns. split; [done|]. split; [done|]. intros n Hn%Hrange. lia.
Qed.

Lemma evict_lookup_Some rem l : ∀ c n v,
  evict rem l c !! n = Some v → c !! n = Some v.
Proof.
  induction l as [|x l IH]; intros c n v; [done|].
  rewrite evict_cons. intros H%IH.
  destruct (sliceIndexOf rem x); [done|].
  by apply lookup_delete_Some in H as [_ H].
Qed.

Lemma retrieve_loop_hit number c ns : ∀ w,
  (∀ n, n ∈ ns → ∃ v h, c !! n = Some v ∧ Header v = Some h ∧ header_Number h = n) →
  ∃ w',
    foldl (λ (acc : M AncientObjectS3) v,
             o ← acc;
             n ← headerNumber v;
             modify_fz (λ f, set_retrieved (<[n := v]> (retrieved f)) f) ;;
             if n =? number then ret v else ret o)
          (ret zeroObject) (map (cached c) ns) w =
    Returns (if bool_decide (number ∈ ns) then cached c number else zeroObject) w'.
Proof.
  induction ns as [|n ns IH] using rev_ind; intros w Hall.
  - by exists w.
  - destruct (IH w) as [w1 E].
    { intros j Hj. apply Hall, elem_of_app. by left. }
    destruct (Hall n) as (v & h & Hv & Hh & Hn).
    { apply elem_of_app. right. by apply list_elem_of_singleton. }
    rewrite map_app. cbn [map]. rewrite foldl_snoc. rewrite (bind_eval _ _ _ _ _ E).
    assert (cached c n = v) as -> by (unfold cached; by rewrite Hv).
    unfold headerNumber. rewrite Hh. unfold bind, ret, modify_fz. rewrite Hn.
    destruct (N.eqb_spec n number) as [->|Hne].
    + eexists. rewrite bool_decide_eq_true_2.
      * unfold cached. by rewrite Hv.
      * apply elem_of_app. right. by apply list_elem_of_singleton.
    + eexists. f_equal.
      rewrite (bool_decide_ext (number ∈ ns ++ [n]) (number ∈ ns)); [done|].
      rewrite elem_of_app, list_elem_of_singleton.
      split; [|by left]. by intros [?|?].
Qed.

(** Where a [Sync] puts the records. *)
Lemma Sync_placed io w w' n0 k :
  cacheS (fz w) = countFrom n0 k →
  n0 + N.of_nat k ≤ maxUint64 →
  size (cache (fz w)) ≠ 0%nat →
  Sync io w = Returns None w' →
  ∀ m, m ∈ cacheS (fz w) →
  ∃ ns,
    bucket w' !! groupKey (objectGroupSize (fz w)) m =
      Some (JSONRecords (map (cached (cache (fz w))) ns)) ∧
    m ∈ ns ∧ ∀ n, n ∈ ns → n ∈ cacheS (fz w).
Proof.
  intros HS Hmax Hsz [[? _]|(_ & wp & n & HP & Hfr & ->)]%Sync_inv m Hm; [done|].
  assert (k ≠ 0%nat) as Hk.
  { intros ->. rewrite HS in Hm. by apply elem_of_nil in Hm. }
  apply pushCache_inv in HP as (Hgs & Hrem & ->);
    [|rewrite HS; by destruct k].
  cbn [bucket]. rewrite lookup_insert_ne by (symmetry; apply awsKeyBlock_not_marker).
  rewrite HS in *. apply elem_of_countFrom in Hm.
  destruct (sealPure_places (objectGroupSize (fz w)) (cache (fz w)) (bucket w)
              k n0 n0 noSealing) with (m := m) as (ns & Hb & Hin & Hrange);
    [done | done | done | done | apply N.le_sub_l
    | by rewrite N.sub_diag | done | done |].
  exists ns. split; [done|]. split; [done|].
  intros j Hj%Hrange. by apply elem_of_countFrom.
Qed.

(** A [Sync] that returns nil on a run of consecutive cached numbers has
    put every cached record into the object of its own group: the object
    under the group key of each cached number holds that number's record. *)
Theorem Sync_stores_each_record io w w' n0 k :
  cacheS (fz w) = countFrom n0 k →
  n0 + N.of_nat k ≤ maxUint64 →
  size (cache (fz w)) ≠ 0%nat →
  Sync io w = Returns None w' →
  ∀ m v, m ∈ cacheS (fz w) → cache (fz w) !! m = Some v →
  ∃ recs, bucket w' !! groupKey (objectGroupSize (fz w)) m = Some (JSONRecords recs) ∧
          v ∈ recs.
Proof.
  intros HS Hmax Hsz H m v Hm Hv.
  destruct (Sync_placed io w w' n0 k HS Hmax Hsz H m Hm) as (ns & Hb & Hin & _).
  eexists. split; [exact Hb|].
  replace v with (cached (cache (fz w)) m) by (unfold cached; by rewrite Hv).
  by apply elem_of_map_2.
Qed.

(** A read that goes to the bucket and finds the group object, whose
    records carry the numbers [ns] in their headers. *)
Lemma Ancient_from_group io kind number n c ns v w :
  frozen (fz w) = Some n →
  number < n →
  objectGroupSize (fz w) ≠ 0 →
  cache (fz w) !! number = None →
  retrieved (fz w) !! number = None →
  get_fault io (groupKey (objectGroupSize (fz w)) number) = None →
  bucket w !! groupKey (objectGroupSize (fz w)) number =
    Some (JSONRecords (map (cached c) ns)) →
  (∀ j, j ∈ ns → ∃ x h, c !! j = Some x ∧ Header x = Some h ∧ header_Number h = j) →
  number ∈ ns →
  c !! number = Some v →
  Hash v ≠ zeroHash →
  ∃ w', Ancient io kind number w = (b ← RLPBytesForKind v kind; ret (Some b, None)) w'.
Proof.
  intros Hfr Hlt Hgs Hc Hr Hio Hb Hall Hin Hv Hhash.
  unfold Ancient, loadFrozen. unfold bind at 1 2. unfold get_fz at 1.
  rewrite Hfr. unfold ret at 1. destruct (N.leb_spec n number); [lia|].
  unfold bind at 1. unfold get_fz at 1. rewrite Hc, Hr.
  unfold bind at 1. rewrite objectKeyForN_ok by done.
  unfold bind at 1. unfold Download. unfold bind at 1. unfold log_request at 1.
  rewrite Hio. unfold bind at 1. unfold get_bucket at 1. cbn [bucket]. rewrite Hb.
  unfold ret at 1. cbn [json_Unmarshal]. unfold bind at 1. unfold modify_fz at 1.
  unfold bind at 1.
  match goal with |- context [foldl ?F ?a (map (cached c) ns) ?w0] =>
    destruct (retrieve_loop_hit number c ns w0 Hall) as [w3 E] end.
  rewrite E. rewrite (bool_decide_eq_true_2 (number ∈ ns)) by done.
  assert (cached c number = v) as -> by (unfold cached; by rewrite Hv).
  rewrite bool_decide_eq_false_2 by done. by exists w3.
Qed.

(** Reading back after a [Sync]. The cached numbers were consecutive, each
    record carrying its own number in its header; the [Sync] returned nil.
    Then a read of any of those numbers below the frozen count, for a known
    kind and with the bucket answering, returns the encoding of the record
    that was cached for it, provided the record's hash is not the zero
    hash. *)
Theorem Ancient_after_Sync io io' kind w w' n0 k n m v :
  cacheS (fz w) = countFrom n0 k →
  n0 + N.of_nat k ≤ maxUint64 →
  size (cache (fz w)) ≠ 0%nat →
  (∀ j, j ∈ cacheS (fz w) →
        ∃ x h, cache (fz w) !! j = Some x ∧ Header x = Some h ∧ header_Number h = j) →
  Sync io w = Returns None w' →
  frozen (fz w) = Some n →
  m ∈ cacheS (fz w) → m < n →
  cache (fz w) !! m = Some v →
  Hash v ≠ zeroHash →
  validKind kind →
  (∀ key, get_fault io' key = None) →
  ∃ b w'', RLPBytesForKind v kind w' = Returns b w' ∧
           Ancient io' kind m w' = Returns (Some b, None) w''.
Proof.
  intros HS Hmax Hsz Hnum H Hfr Hm Hlt Hv Hhash Hkind Hio.
  destruct (Sync_placed io w w' n0 k HS Hmax Hsz H m Hm) as (ns & Hb & Hin & Hsub).
  destruct (RLPBytesForKind_valid v kind w' Hkind) as [b Eb]. exists b.
  apply RLPBytesForKind_inv in Eb as Eb'. destruct Eb' as [_ Eb'].
  apply Sync_inv in H as [[? _]|(_ & wp & n' & HP & Hfr' & ->)]; [done|].
  pose proof (pushCache_frame _ _ _ _ HP) as (Hfrp & _).
  assert (n' = n) as -> by congruence.
  apply pushCache_inv in HP as (Hgs & Hrem & ->).
  2:{ intros E. rewrite E in Hm. by apply elem_of_nil in Hm. }
  set (gs := objectGroupSize (fz w)) in *.
  set (st := sealPure gs (cache (fz w)) (cacheS (fz w)) noSealing) in *.
  match type of Eb with RLPBytesForKind v kind ?w0 = _ => set (w1 := w0) in * end.
  destruct (cache (fz w1) !! m) as [v'|] eqn:Ev.
  { assert (v' = v) as ->.
    { cbn in Ev. apply evict_lookup_Some in Ev. congruence. }
    exists w1. split; [done|].
    rewrite (Ancient_cached io' kind m n v w1); [|done|done|done].
    unfold bind. by rewrite Eb. }
  destruct (Ancient_from_group io' kind m n (cache (fz w)) ns v w1)
    as [w3 E]; try done.
  { intros j Hj. by apply Hnum, Hsub. }
  exists w3. split; [done|]. rewrite E. unfold bind. by rewrite Eb'.
Qed.

End Durable.

(** * Instances of the further properties *)

Lemma Returns_world_of {A} (m : outcome A) (r : A) :
  returned m = Some r → m = Returns r (world_of m).
Proof. destruct m; simpl; congruence. Qed.

Ltac by_run :=
  lazymatch goal with
  | |- ?m = Returns ?r ?w =>
      let H := fresh in
      assert (returned m = Some r) as H by by_eval;
      exact_no_check (Returns_world_of m r H)
  end.

Lemma AppendAncient_error_witness :
  NewAncientObjectS3 [] [] [] [] [] = inl ErrRLP ∧ Toy.fresh 4 = Toy.fresh 4.
Proof. apply (AppendAncient_error 0 [] [] [] [] [] (Toy.fresh 4) ErrRLP (Toy.fresh 4)). by_eval. Defined.

Lemma AppendAncient_stages_witness :
  frozen (fz Toy.appendedOne) = Some 1 ∧ cacheS (fz Toy.appendedOne) = [0] ∧
  requests Toy.appendedOne = [].
Proof.
  destruct (AppendAncient_stages 0 (Toy.hashBlob 0) (Toy.blob 0) (Toy.blob 0)
              (Toy.blob 0) (Toy.blob 0) (Toy.fresh 4) Toy.appendedOne)
    as (obj & n & _ & Hn & Hfr & HS & _ & _ & Hr); [by_run|].
  injection Hn as <-. by split.
Defined.

Lemma Ancient_after_AppendAncient_witness :
  Ancient noFaults "hashes" 0 Toy.appendedOne =
  (b ← RLPBytesForKind (Toy.block 0) "hashes"; ret (Some b, None)) Toy.appendedOne.
Proof.
  apply (Ancient_after_AppendAncient 0 (Toy.hashBlob 0) (Toy.blob 0) (Toy.blob 0)
           (Toy.blob 0) (Toy.blob 0) (Toy.block 0) (Toy.fresh 4) Toy.appendedOne);
    [by_eval | by_eval | by_eval | by_run].
Defined.

Lemma AppendAncient_unaligned_first_panics_witness :
  AppendAncient 1 (Toy.hashBlob 1) (Toy.blob 1) (Toy.blob 1) (Toy.blob 1) (Toy.blob 1)
    (Toy.fresh 4) =
  Panics (PanicCacheNotAtMod 1 (1 mod objectGroupSize (fz (Toy.fresh 4))))
    {| fz := set_cacheS [1]
               (set_cache (<[1 := Toy.block 1]> (cache (fz (Toy.fresh 4))))
                  (fz (Toy.fresh 4)));
       bucket := bucket (Toy.fresh 4); requests := requests (Toy.fresh 4) |}.
Proof.
  apply (AppendAncient_unaligned_first_panics 1 (Toy.hashBlob 1) (Toy.blob 1)
           (Toy.blob 1) (Toy.blob 1) (Toy.blob 1) (Toy.block 1) (Toy.fresh 4));
    by_eval.
Defined.

Lemma runOps_headAligned_witness :
  headAligned (fz (world_of (runOps Toy.someOps (Toy.fresh 4)))).
Proof.
  apply (runOps_headAligned Toy.someOps (Toy.fresh 4)); [by_eval | by_run].
Defined.

Lemma awsKeyBlock_inj_witness : 4 = 4.
Proof. apply (awsKeyBlock_inj 4 4); by_eval. Defined.

Lemma groupKey_same_group_witness :
  groupKey 4 5 = groupKey 4 6 ↔ 5 `div` 4 = 6 `div` 4.
Proof. apply (groupKey_same_group 4 5 6); by_eval. Defined.

Lemma Sync_frame_witness :
  frozen (fz (world_of (Sync Toy.noUploads Toy.appendedOne))) = frozen (fz Toy.appendedOne) ∧
  objectGroupSize (fz (world_of (Sync Toy.noUploads Toy.appendedOne))) =
    objectGroupSize (fz Toy.appendedOne) ∧
  bucket (world_of (Sync Toy.noUploads Toy.appendedOne)) !! indexMarkerKey =
    bucket Toy.appendedOne !! indexMarkerKey.
Proof.
  destruct (Sync_frame Toy.noUploads Toy.appendedOne
              (Some (AwsError "BatchedUploadIncomplete"))
              (world_of (Sync Toy.noUploads Toy.appendedOne)))
    as (H1 & H2 & H3); [by_run|].
  split; [done|]. split; [done|]. apply H3. by eexists.
Defined.

Lemma Sync_writes_marker_witness :
  ∃ n, frozen (fz Toy.syncedOnce) = Some n ∧
       bucket Toy.syncedOnce !! indexMarkerKey = Some (Text (FormatUint n)).
Proof.
  apply (Sync_writes_marker noFaults Toy.appendedOne Toy.syncedOnce); [by_eval | by_run].
Defined.

Lemma Ancients_reads_marker_witness :
  Ancients noFaults
    {| fz := emptyFreezer 4;
       bucket := bucket (world_of (setIndexMarker noFaults 7 (Toy.fresh 4)));
       requests := [] |} =
  Returns (7, None)
    {| fz := emptyFreezer 4;
       bucket := bucket (world_of (setIndexMarker noFaults 7 (Toy.fresh 4)));
       requests := [ReqGetObject indexMarkerKey] |}.
Proof.
  apply (Ancients_reads_marker noFaults noFaults 7 (Toy.fresh 4));
    [unfold maxUint64; lia | by_run | by_eval | by_eval].
Defined.
Lemma pushCache_uploads_every_record_witness :
  ∃ ups,
    requests (world_of (pushCache noFaults Toy.fiveAppended)) =
      rev (map (λ kv, ReqUpload kv.1 kv.2) ups) ++ requests Toy.fiveAppended ∧
    bucket (world_of (pushCache noFaults Toy.fiveAppended)) =
      putAll ups (bucket Toy.fiveAppended) ∧
    concat (map (recordsOf ∘ snd) ups) =
      map (cached (cache (fz Toy.fiveAppended))) (cacheS (fz Toy.fiveAppended)) ∧
    Forall (λ kv, ∃ m, m ∈ cacheS (fz Toy.fiveAppended) ∧
                       kv.1 = groupKey (objectGroupSize (fz Toy.fiveAppended)) m) ups.
Proof.
  apply (pushCache_uploads_every_record noFaults Toy.fiveAppended
           (world_of (pushCache noFaults Toy.fiveAppended))); [by_eval | by_run].
Defined.

Lemma TruncateAncients_within_cache_witness :
  frozen (fz (world_of (TruncateAncients noFaults 3 Toy.fiveAppended))) = Some 3 ∧
  bucket (world_of (TruncateAncients noFaults 3 Toy.fiveAppended)) =
    <[indexMarkerKey := Text (FormatUint 3)]> (bucket Toy.fiveAppended).
Proof.
  pose proof (TruncateAncients_within_cache noFaults 3 Toy.fiveAppended
                (world_of (TruncateAncients noFaults 3 Toy.fiveAppended))) as H.
  assert (cacheS (fz Toy.fiveAppended) = [0; 1; 2; 3; 4]) as E by by_eval.
  rewrite E in H. destruct H as (_ & _ & _ & H1 & H2 & _).
  - repeat constructor.
  - by_run.
  - by split.
Defined.

Lemma TruncateAncients_aligned_target_witness :
  cacheS (fz (world_of (TruncateAncients noFaults 4 Toy.fourAppended))) = [] ∧
  cache (fz (world_of (TruncateAncients noFaults 4 Toy.fourAppended))) = ∅ ∧
  bucket (world_of (TruncateAncients noFaults 4 Toy.fourAppended)) !! awsKeyBlock 0 = None.
Proof.
  rewrite (TruncateAncients_aligned_target noFaults 4 Toy.fourAppended 0 [1; 2; 3] 4).
  - by_eval.
  - by_eval.
  - by_eval.
  - by_eval.
  - apply (bool_decide_unpack _). by_eval.
  - by_eval.
  - by_eval.
  - by_eval.
  - by_eval.
Defined.

Lemma Ancient_reads_only_witness :
  let w' := world_of (Ancient noFaults "hashes" 0 Toy.fiveSynced) in
  frozen (fz w') = frozen (fz Toy.fiveSynced) ∧
  objectGroupSize (fz w') = objectGroupSize (fz Toy.fiveSynced) ∧
  cache (fz w') = cache (fz Toy.fiveSynced) ∧
  cacheS (fz w') = cacheS (fz Toy.fiveSynced) ∧
  bucket w' = bucket Toy.fiveSynced.
Proof.
  apply (Ancient_reads_only noFaults "hashes" 0 Toy.fiveSynced
           (Some (BytesToHash (Toy.hashBlob 0)), None)).
  by_run.
Defined.

Lemma Ancient_repeat_witness :
  let w' := world_of (Ancient noFaults "hashes" 0 Toy.fiveSynced) in
  Ancient Toy.brokenLink "hashes" 0 w' =
  Returns (Some (BytesToHash (Toy.hashBlob 0)), None) w'.
Proof.
  apply (Ancient_repeat noFaults Toy.brokenLink "hashes" 0 Toy.fiveSynced). by_run.
Defined.

Lemma Ancient_record_missing_from_group_panics_witness :
  ∃ w', Ancient noFaults "hashes" 2 Toy.shortGroup = Panics PanicBad w'.
Proof.
  apply (Ancient_record_missing_from_group_panics noFaults "hashes" 2 3
           [Toy.block 0; Toy.block 1] Toy.shortGroup); try by_eval.
  repeat constructor; eexists; (split; [reflexivity|by_eval]).
Defined.

Lemma HasAncient_after_AppendAncient_witness :
  HasAncient noFaults "hashes" 0 Toy.appendedOne = Returns (true, None) Toy.appendedOne.
Proof.
  apply (HasAncient_after_AppendAncient 0 (Toy.hashBlob 0) (Toy.blob 0) (Toy.blob 0)
           (Toy.blob 0) (Toy.blob 0) (Toy.fresh 4));
    [by_eval | by_eval | by left | by_run].
Defined.

Lemma newFreezerRemoteS3_without_count_witness :
  newFreezerRemoteS3 noFaults "4" (Toy.unbuilt {[ indexMarkerKey := Text "four" ]}) =
  Returns (true, None)
    {| fz := {| frozen := Some 0; objectGroupSize := 4; retrieved := ∅;
                cache := ∅; cacheS := [] |};
       bucket := bucket (Toy.unbuilt {[ indexMarkerKey := Text "four" ]});
       requests := ReqGetObject indexMarkerKey :: bucketRequests noFaults ++
                   requests (Toy.unbuilt {[ indexMarkerKey := Text "four" ]}) |}.
Proof.
  apply (newFreezerRemoteS3_without_count noFaults "4" 4
           (Toy.unbuilt {[ indexMarkerKey := Text "four" ]})); try by_eval.
  - by right.
  - right. exists "four". by split; by_eval.
Defined.
Lemma newFreezerRemoteS3_after_Sync_witness :
  ∃ w2,
    newFreezerRemoteS3 noFaults "4"
      {| fz := emptyFreezer 0; bucket := bucket Toy.fiveSynced; requests := [] |} =
      Returns (true, None) w2 ∧
    frozen (fz w2) = Some 5 ∧
    objectGroupSize (fz w2) = objectGroupSize (fz Toy.fiveSynced) ∧
    cacheS (fz w2) = cacheS (fz Toy.fiveSynced) ∧
    (∀ k, k ∈ cacheS (fz Toy.fiveSynced) →
          cache (fz w2) !! k = cache (fz Toy.fiveSynced) !! k) ∧
    bucket w2 = bucket Toy.fiveSynced.
Proof.
  assert (cacheS (fz Toy.fiveSynced) = [4]) as E by by_eval.
  apply (newFreezerRemoteS3_after_Sync noFaults noFaults "4" Toy.fiveAppended
           Toy.fiveSynced 5 (emptyFreezer 0) []).
  - by_eval.
  - by_eval.
  - by_run.
  - by_eval.
  - unfold maxUint64. lia.
  - intros k Hk. rewrite E in Hk. apply list_elem_of_singleton in Hk as ->.
    exists (Toy.block 4), 4. split; [by_eval|]. by split.
  - intros m Hm. rewrite E in Hm. injection Hm as <-. by_eval.
  - right. by split; by_eval.
  - done.
  - done.
  - done.
Defined.

Lemma Sync_stores_each_record_witness :
  ∃ recs, bucket Toy.fiveSynced !! groupKey (objectGroupSize (fz Toy.fiveAppended)) 1 =
            Some (JSONRecords recs) ∧
          Toy.block 1 ∈ recs.
Proof.
  apply (Sync_stores_each_record noFaults Toy.fiveAppended Toy.fiveSynced 0 5).
  - by_eval.
  - unfold maxUint64. lia.
  - by_eval.
  - by_run.
  - apply (bool_decide_unpack _). by_eval.
  - by_eval.
Defined.

Lemma Ancient_after_Sync_witness :
  ∃ b w'', RLPBytesForKind (Toy.block 1) "headers" Toy.fiveSynced =
             Returns b Toy.fiveSynced ∧
           Ancient noFaults "headers" 1 Toy.fiveSynced = Returns (Some b, None) w''.
Proof.
  assert (cacheS (fz Toy.fiveAppended) = [0; 1; 2; 3; 4]) as E by by_eval.
  apply (Ancient_after_Sync noFaults noFaults "headers" Toy.fiveAppended Toy.fiveSynced
           0 5 5 1 (Toy.block 1)).
  - by_eval.
  - unfold maxUint64. lia.
  - by_eval.
  - intros j Hj. rewrite E in Hj.
    repeat (apply elem_of_cons in Hj as [->|Hj];
            [match goal with
             | |- ∃ x h, _ !! ?i = _ ∧ _ =>
                 exists (Toy.block i), i; split; [by_eval | split; reflexivity]
             end|]).
    destruct (proj1 (elem_of_nil j) Hj).
  - by_run.
  - by_eval.
  - apply (bool_decide_unpack _). by_eval.
  - lia.
  - by_eval.
  - by_eval.
  - right. by left.
  - done.
Defined.
